(** * rhub lab regions: access policy, region queries, product associations
      and usage aggregation

    A shallow embedding of [src/rhub/api/lab/region.py].

    The handlers of that module talk to three collaborators which are not
    part of it: the authorisation helpers ([rhub.auth.utils]), the storage
    session ([rhub.api.db], SQLAlchemy) and the ORM model ([rhub.lab.model]).
    Each is an interface here (a type class), the handlers are written over
    the interfaces, and a concrete instance of each is given for running the
    handlers on sample data. *)

From Stdlib Require Import ZArith List String Ascii Bool Lia Permutation.
From Stdlib Require Import DecimalString DecimalPos DecimalZ.
Import ListNotations.

Local Open Scope string_scope.
Local Open Scope Z_scope.

(** ** Python values, dictionaries and exceptions *)

(** A quota limit is an integer or [None]. *)
Inductive pyval : Type :=
| PNone
| PInt (z : Z).

(** Truth value of a limit in an [if]: [None] and [0] are false. *)
Definition truthy (v : pyval) : bool :=
  match v with
  | PNone => false
  | PInt z => negb (z =? 0)
  end.

(** The exceptions the module can see. *)
Inductive exn : Type :=
| Forbidden (description : string)
| KeyError (key : string)
| TypeError
| AttributeError
| StorageError.

Inductive result (A : Type) : Type :=
| Ok (a : A)
| Raise (e : exn).

Arguments Ok {A} a.
Arguments Raise {A} e.

Definition rbind {A B} (m : result A) (k : A -> result B) : result B :=
  match m with
  | Ok a => k a
  | Raise e => Raise e
  end.

(** [try: m except Exception: h] *)
Definition try_except {A} (m : result A) (h : result A) : result A :=
  match m with
  | Ok a => Ok a
  | Raise _ => h
  end.

Declare Scope result_scope.
Delimit Scope result_scope with result.
Notation "x <- m ;; k" := (rbind m (fun x => k))
  (at level 61, m at next level, right associativity) : result_scope.

(** A [dict] with string keys, in insertion order. *)
Definition dict (V : Type) : Type := list (string * V).

Fixpoint dict_get {V} (d : dict V) (k : string) : option V :=
  match d with
  | [] => None
  | (k', v) :: d' => if String.eqb k' k then Some v else dict_get d' k
  end.

(** [d[k] = v]: overwrites in place, or appends a new key. *)
Fixpoint dict_set {V} (d : dict V) (k : string) (v : V) : dict V :=
  match d with
  | [] => [(k, v)]
  | (k', v') :: d' =>
      if String.eqb k' k then (k', v) :: d' else (k', v') :: dict_set d' k v
  end.

Definition dict_keys {V} (d : dict V) : list string := map fst d.

Definition dict_mem {V} (d : dict V) (k : string) : bool :=
  match dict_get d k with Some _ => true | None => false end.

(** [d[k]] as an expression: a missing key raises [KeyError]. *)
Definition subscript {V} (d : dict V) (k : string) : result V :=
  match dict_get d k with
  | Some v => Ok v
  | None => Raise (KeyError k)
  end.

(** [u[k]] where [u] may be [None]: subscripting [None] is a [TypeError]. *)
Definition subscript_opt {V} (u : option (dict V)) (k : string) : result V :=
  match u with
  | None => Raise TypeError
  | Some d => subscript d k
  end.

(** [a + b] on limits: defined on two integers only. *)
Definition py_add (a b : pyval) : result pyval :=
  match a, b with
  | PInt x, PInt y => Ok (PInt (x + y))
  | _, _ => Raise TypeError
  end.

(** [str(n)] for an integer. *)
Definition str_Z (z : Z) : string := NilZero.string_of_int (Z.to_int z).

(** HTTP answers: [problem(status, title, detail)] or a payload. *)
Inductive response (A : Type) : Type :=
| Problem (status : Z) (title detail : string)
| Payload (a : A).

Arguments Problem {A} status title detail.
Arguments Payload {A} a.

(** ** SQL values and three-valued conditions *)

Inductive sqlval : Type :=
| VNull
| VBool (b : bool)
| VInt (z : Z)
| VStr (s : string).

Definition sqlval_eqb (a b : sqlval) : bool :=
  match a, b with
  | VNull, VNull => true
  | VBool x, VBool y => Bool.eqb x y
  | VInt x, VInt y => x =? y
  | VStr x, VStr y => String.eqb x y
  | _, _ => false
  end.

Definition opt_int (o : option Z) : sqlval :=
  match o with Some z => VInt z | None => VNull end.

Definition opt_str (o : option string) : sqlval :=
  match o with Some s => VStr s | None => VNull end.

(** A condition is true, false or unknown ([None]). *)
Definition cond : Type := option bool.

Definition is_null (c : sqlval) : cond :=
  Some (match c with VNull => true | _ => false end).

(** [column == value]: the ORM renders a comparison with [None] as
    [IS NULL]; any other comparison with a null column is unknown. *)
Definition col_eq (c v : sqlval) : cond :=
  match v, c with
  | VNull, _ => is_null c
  | _, VNull => None
  | _, _ => Some (sqlval_eqb c v)
  end.

(** [column.in_(ids)] for a list of integers. *)
Definition col_in (c : sqlval) (ids : list Z) : cond :=
  match c with
  | VNull => None
  | VInt z => Some (existsb (Z.eqb z) ids)
  | _ => Some false
  end.

Definition or3 (a b : cond) : cond :=
  match a, b with
  | Some true, _ | _, Some true => Some true
  | Some false, Some false => Some false
  | _, _ => None
  end.

Definition or_ (cs : list cond) : cond := fold_right or3 (Some false) cs.

(** A [WHERE] clause keeps the rows on which the condition is true. *)
Definition holds (c : cond) : bool :=
  match c with Some true => true | _ => false end.

Definition where_ {A} (q : list A) (c : A -> cond) : list A :=
  filter (fun row => holds (c row)) q.

(** ** Data model *)

Record Location : Type := {
  loc_id : Z;
  loc_name : string
}.

Record Group : Type := {
  grp_id : Z;
  grp_name : string
}.

Record Product : Type := {
  p_id : Z;
  p_name : string;
  p_enabled : bool
}.

Record RegionProduct : Type := {
  rp_region_id : Z;
  rp_product_id : Z;
  rp_enabled : bool
}.

(** A region. A quota is kept as the dictionary its [to_dict()] gives. *)
Record Region : Type := {
  r_id : Z;
  r_name : string;
  r_enabled : bool;
  r_reservations_enabled : bool;
  r_location_id : option Z;
  r_owner_group_id : Z;
  r_users_group_id : option Z;
  r_tower_id : Z;
  r_openstack_id : Z;
  r_satellite_id : option Z;
  r_dns_id : option Z;
  r_user_quota : option (dict pyval);
  r_total_quota : option (dict pyval)
}.

Record Db : Type := {
  regions : list Region;
  products : list Product;
  region_products : list RegionProduct;
  locations : list Location;
  groups : list Group
}.

Definition set_regions (db : Db) (l : list Region) : Db :=
  {| regions := l; products := products db;
     region_products := region_products db;
     locations := locations db; groups := groups db |}.

Definition set_region_products (db : Db) (l : list RegionProduct) : Db :=
  {| regions := regions db; products := products db;
     region_products := l;
     locations := locations db; groups := groups db |}.

(** ** The storage session

    [committed] is what the database holds, [pending] what the session sees
    (the database and the unit of work on top of it), [log] the calls made
    on [db.session] so far, latest last. *)

Inductive entity : Type :=
| ERegion (r : Region)
| ERegionProduct (rp : RegionProduct).

Inductive event : Type :=
| EvAdd (e : entity)
| EvDelete (e : entity)
| EvFlush
| EvCommit.

Record Session : Type := {
  committed : Db;
  pending : Db;
  log : list event
}.

Definition begin (db : Db) : Session :=
  {| committed := db; pending := db; log := [] |}.

(** What is left of a session that ends without a commit. *)
Definition rollback (s : Session) : Session :=
  {| committed := committed s; pending := committed s; log := log s |}.

(** ** Collaborators *)

(** [rhub.auth.utils] *)
Class AuthUtils : Type := {
  user_is_admin : Z -> bool;
  user_group_ids : Z -> list Z
}.

(** The storage engine: its [ILIKE] operator, [rhub.api.utils.db_sort]
    (ordering of a region query by a sort key and a column map), the next
    value of the region id sequence, and whether it rejects a flush or a
    commit of a session (a violated constraint, a lost connection). *)
Class Storage : Type := {
  ilike : sqlval -> sqlval -> cond;
  db_sort : Db -> list Region -> string -> dict string -> list Region;
  next_region_id : Db -> Z;
  rejects : Session -> bool
}.

(** [rhub.lab.model]: building and patching a region from a request body,
    and the consumption figures of a region. *)
Class LabModel : Type := {
  region_body : Type;
  from_dict : region_body -> Region;
  update_from_dict : Region -> region_body -> Region;
  get_user_quota_usage : Region -> Z -> option (dict pyval);
  get_total_quota_usage : Region -> option (dict pyval)
}.

(** ** Session monad: state is kept when an exception is raised *)

Definition M (A : Type) : Type := Session -> result A * Session.

Definition ret {A} (a : A) : M A := fun s => (Ok a, s).

Definition raise {A} (e : exn) : M A := fun s => (Raise e, s).

Definition bind {A B} (m : M A) (k : A -> M B) : M B :=
  fun s =>
    match m s with
    | (Ok a, s') => k a s'
    | (Raise e, s') => (Raise e, s')
    end.

Declare Scope session_scope.
Delimit Scope session_scope with session.
Notation "x <- m ;; k" := (bind m (fun x => k))
  (at level 61, m at next level, right associativity) : session_scope.
Notation "m ;; k" := (bind m (fun _ => k))
  (at level 61, right associativity) : session_scope.

(** [for x in l: f x] *)
Fixpoint for_each {A} (l : list A) (f : A -> M unit) : M unit :=
  match l with
  | [] => ret tt
  | x :: l' => bind (f x) (fun _ => for_each l' f)
  end.

Definition query {A} (f : Db -> A) : M A := fun s => (Ok (f (pending s)), s).

Definition record (ev : event) (s : Session) (db : Db) : Session :=
  {| committed := committed s; pending := db; log := log s ++ [ev] |}.

Definition RegionProduct_eqb (a b : RegionProduct) : bool :=
  (rp_region_id a =? rp_region_id b) && (rp_product_id a =? rp_product_id b)
  && Bool.eqb (rp_enabled a) (rp_enabled b).

Definition with_id (r : Region) (i : Z) : Region :=
  {| r_id := i; r_name := r_name r; r_enabled := r_enabled r;
     r_reservations_enabled := r_reservations_enabled r;
     r_location_id := r_location_id r;
     r_owner_group_id := r_owner_group_id r;
     r_users_group_id := r_users_group_id r;
     r_tower_id := r_tower_id r; r_openstack_id := r_openstack_id r;
     r_satellite_id := r_satellite_id r; r_dns_id := r_dns_id r;
     r_user_quota := r_user_quota r; r_total_quota := r_total_quota r |}.

Section Session_ops.
Context {ST : Storage}.

(** [db.session.add(x)]; a new region gets the next id of the sequence
    and is handed back as stored. *)
Definition session_add_region (r : Region) : M Region :=
  fun s =>
    let r' := with_id r (next_region_id (pending s)) in
    (Ok r', record (EvAdd (ERegion r')) s
              (set_regions (pending s) (regions (pending s) ++ [r']))).

Definition session_add_region_product (rp : RegionProduct) : M unit :=
  fun s =>
    (Ok tt, record (EvAdd (ERegionProduct rp)) s
              (set_region_products (pending s)
                 (region_products (pending s) ++ [rp]))).

(** [db.session.delete(x)] *)
Definition session_delete (e : entity) : M unit :=
  fun s =>
    (Ok tt, record (EvDelete e) s
       match e with
       | ERegion r =>
           set_regions (pending s)
             (filter (fun x => negb (r_id x =? r_id r)) (regions (pending s)))
       | ERegionProduct rp =>
           set_region_products (pending s)
             (filter (fun x => negb (RegionProduct_eqb x rp))
                     (region_products (pending s)))
       end).

(** [db.session.flush()] *)
Definition session_flush : M unit :=
  fun s =>
    if rejects s then (Raise StorageError, s)
    else (Ok tt, record EvFlush s (pending s)).

(** [db.session.commit()] *)
Definition session_commit : M unit :=
  fun s =>
    if rejects s then (Raise StorageError, s)
    else (Ok tt, {| committed := pending s; pending := pending s;
                    log := log s ++ [EvCommit] |}).

(** Attribute assignment on a loaded row: [relation.enabled = b]. *)
Definition set_enabled (rp : RegionProduct) (b : bool) : M unit :=
  fun s =>
    (Ok tt,
     {| committed := committed s;
        pending := set_region_products (pending s)
          (map (fun x => if RegionProduct_eqb x rp
                         then {| rp_region_id := rp_region_id x;
                                 rp_product_id := rp_product_id x;
                                 rp_enabled := b |}
                         else x)
               (region_products (pending s)));
        log := log s |}).

(** In-place change of a loaded region (its id selects the row). *)
Definition assign_region (r r' : Region) : M unit :=
  fun s =>
    (Ok tt,
     {| committed := committed s;
        pending := set_regions (pending s)
          (map (fun x => if r_id x =? r_id r then r' else x)
               (regions (pending s)));
        log := log s |}).

End Session_ops.

(** [model.Region.query.get(id)], [model.Product.query.get(id)] *)
Definition Region_query_get (db : Db) (region_id : Z) : option Region :=
  find (fun r => r_id r =? region_id) (regions db).

Definition Product_query_get (db : Db) (product_id : Z) : option Product :=
  find (fun p => p_id p =? product_id) (products db).

(** ** Views returned to the caller *)

(** [url_for(endpoint, id)] *)
Inductive link : Type :=
| Link (endpoint : string) (arg : Z).

(** [a | b] on dictionaries: keys of [b] win. *)
Definition dict_union {V} (a b : dict V) : dict V :=
  fold_left (fun acc kv => dict_set acc (fst kv) (snd kv)) b a.

(** [region.to_dict() | {'_href': ...}] *)
Record RegionView : Type := {
  view_region : Region;
  view_href : dict link
}.

Record RegionProductView : Type := {
  rpv_region_id : Z;
  rpv_product_id : Z;
  rpv_product : Product;
  rpv_enabled : bool;
  rpv_href : dict link
}.

Record RegionList : Type := {
  data : list RegionView;
  total : nat
}.

(** The four fields of a usage view. *)
Record Usage : Type := {
  user_quota : option (dict pyval);
  user_quota_usage : option (dict pyval);
  total_quota : option (dict pyval);
  total_quota_usage : option (dict pyval)
}.

(** [rhub.api.lab.product._product_href] *)
Class ProductApi : Type := {
  _product_href : Product -> dict link
}.

(** An optional id in an [if]: [None] and [0] are false. *)
Definition id_truthy (o : option Z) : option Z :=
  match o with
  | Some z => if z =? 0 then None else Some z
  | None => None
  end.

(** The request body of the product association calls. *)
Record ProductBody : Type := {
  body_id : Z;
  body_enabled : option bool
}.

(** ** The module [rhub.api.lab.region] *)

Definition _region_href (region : Region) : dict link :=
  let href :=
    [ ("region", Link ".rhub_api_lab_region_get_region" (r_id region));
      ("region_usage", Link ".rhub_api_lab_region_get_usage" (r_id region));
      ("region_products",
       Link ".rhub_api_lab_region_list_region_products" (r_id region));
      ("tower", Link ".rhub_api_tower_get_server" (r_tower_id region));
      ("owner_group",
       Link ".rhub_api_auth_group_group_get" (r_owner_group_id region));
      ("openstack_cloud",
       Link ".rhub_api_openstack_cloud_get" (r_openstack_id region)) ] in
  let href :=
    match id_truthy (r_satellite_id region) with
    | Some i =>
        dict_set href "satellite_server" (Link ".rhub_api_satellite_server_get" i)
    | None => href
    end in
  let href :=
    match id_truthy (r_dns_id region) with
    | Some i => dict_set href "dns_server" (Link ".rhub_api_dns_server_get" i)
    | None => href
    end in
  match id_truthy (r_users_group_id region) with
  | Some i => dict_set href "users_group" (Link ".rhub_api_auth_group_group_get" i)
  | None => href
  end.

Definition region_view (region : Region) : RegionView :=
  {| view_region := region; view_href := _region_href region |}.

Definition not_found {A} (kind : string) (i : Z) : response A :=
  Problem 404 "Not Found" (kind ++ " " ++ str_Z i ++ " does not exist").

(** [x in ids] *)
Definition mem (x : Z) (ids : list Z) : bool := existsb (Z.eqb x) ids.

Section Access_policy.
Context {AU : AuthUtils}.

Definition _user_can_access_region (region : Region) (user_id : Z) : bool :=
  if user_is_admin user_id then true
  else
    match r_users_group_id region with
    | None => true
    | Some users_group_id =>
        let user_groups := user_group_ids user_id in
        mem users_group_id user_groups
        || mem (r_owner_group_id region) user_groups
    end.

Definition _user_can_modify_region (region : Region) (user_id : Z) : bool :=
  if user_is_admin user_id then true
  else negb (mem (r_owner_group_id region) (user_group_ids user_id)).

Definition _query_regions_with_permissions (db : Db) (user : Z) : list Region :=
  if user_is_admin user then regions db
  else
    let user_groups := user_group_ids user in
    where_ (regions db) (fun r =>
      or_ [ is_null (opt_int (r_users_group_id r));
            col_in (opt_int (r_users_group_id r)) user_groups;
            col_in (VInt (r_owner_group_id r)) user_groups ]).

End Access_policy.

(** ** Listing regions *)

(** Columns reached through the outer joins of [list_regions]. *)
Definition location_name (db : Db) (r : Region) : sqlval :=
  match r_location_id r with
  | None => VNull
  | Some i =>
      opt_str (option_map loc_name
                 (find (fun l => loc_id l =? i) (locations db)))
  end.

Definition group_name (db : Db) (gid : option Z) : sqlval :=
  match gid with
  | None => VNull
  | Some i =>
      opt_str (option_map grp_name
                 (find (fun g => grp_id g =? i) (groups db)))
  end.

(** [if key in filter_: q = q.filter(c(row, filter_[key]))] *)
Definition filter_by {A} (filter_ : dict sqlval) (key : string)
    (c : sqlval -> A -> cond) (q : list A) : list A :=
  match dict_get filter_ key with
  | Some v => where_ q (c v)
  | None => q
  end.

(** [q.limit(limit).offset(offset)] *)
Definition limit_offset {A} (q : list A) (limit offset : nat) : list A :=
  firstn limit (skipn offset q).

Definition sort_columns : dict string :=
  [ ("name", "lab_region.name"); ("location", "lab_location.name") ].

Section Region_queries.
Context {AU : AuthUtils} {ST : Storage}.

(** The query [list_regions] builds before it is paginated and counted. *)
Definition list_regions_query (db : Db) (user : Z) (filter_ : dict sqlval)
    (sort : option string) : list Region :=
  let regions := _query_regions_with_permissions db user in
  let regions :=
    filter_by filter_ "name" (fun v r => ilike (VStr (r_name r)) v) regions in
  let regions :=
    filter_by filter_ "location" (fun v r => ilike (location_name db r) v)
      regions in
  let regions :=
    filter_by filter_ "enabled" (fun v r => col_eq (VBool (r_enabled r)) v)
      regions in
  let regions :=
    filter_by filter_ "reservations_enabled"
      (fun v r => col_eq (VBool (r_reservations_enabled r)) v) regions in
  let regions :=
    filter_by filter_ "owner_group_id"
      (fun v r => col_eq (VInt (r_owner_group_id r)) v) regions in
  let regions :=
    filter_by filter_ "owner_group_name"
      (fun v r => col_eq (group_name db (Some (r_owner_group_id r))) v)
      regions in
  let regions :=
    filter_by filter_ "users_group_id"
      (fun v r => col_eq (opt_int (r_users_group_id r)) v) regions in
  let regions :=
    filter_by filter_ "users_group_name"
      (fun v r => col_eq (group_name db (r_users_group_id r)) v) regions in
  match sort with
  | Some (String c s) => db_sort db regions (String c s) sort_columns
  | Some EmptyString | None => regions
  end.

Definition list_regions (db : Db) (user : Z) (filter_ : dict sqlval)
    (sort : option string) (page limit : nat) : RegionList :=
  let regions := list_regions_query db user filter_ sort in
  {| data := map region_view (limit_offset regions limit (page * limit));
     total := List.length regions |}.

End Region_queries.

(** ** Handlers that read or change single regions *)

Definition no_access : exn := Forbidden "You don't have access to this region.".

Definition no_write_access : exn :=
  Forbidden "You don't have write access to this region.".

(** Rows of the association table that a [filter] selects. *)
Definition RegionProduct_of_region (db : Db) (region : Region)
    : list RegionProduct :=
  where_ (region_products db)
    (fun rp => col_eq (VInt (rp_region_id rp)) (VInt (r_id region))).

Definition RegionProduct_of_pair (db : Db) (region : Region) (product : Product)
    : list RegionProduct :=
  where_ (region_products db)
    (fun rp =>
       match col_eq (VInt (rp_region_id rp)) (VInt (r_id region)),
             col_eq (VInt (rp_product_id rp)) (VInt (p_id product)) with
       | Some a, Some b => Some (a && b)
       | _, _ => None
       end).

Section Handlers.
Context {AU : AuthUtils} {ST : Storage} {LM : LabModel} {PA : ProductApi}.

Local Open Scope session_scope.

(** The [vault] argument of the source is not used by the body and is
    left out; [logger.info] has no effect on the result or the session. *)
Definition create_region (body : region_body) (user : Z)
    : M (response RegionView) :=
  let region := from_dict body in
  region <- session_add_region region ;;
  session_commit ;;
  ret (Payload (region_view region)).

Definition get_region (db : Db) (region_id user : Z)
    : result (response RegionView) :=
  match Region_query_get db region_id with
  | None => Ok (not_found "Region" region_id)
  | Some region =>
      if negb (_user_can_access_region region user) then Raise no_access
      else Ok (Payload (region_view region))
  end.

Definition update_region (region_id : Z) (body : region_body) (user : Z)
    : M (response RegionView) :=
  region <- query (fun db => Region_query_get db region_id) ;;
  match region with
  | None => ret (not_found "Region" region_id)
  | Some region =>
      if negb (_user_can_modify_region region user) then raise no_write_access
      else
        let region' := update_from_dict region body in
        assign_region region region' ;;
        session_commit ;;
        ret (Payload (region_view region'))
  end.

Definition delete_region (region_id user : Z) : M (response unit) :=
  region <- query (fun db => Region_query_get db region_id) ;;
  match region with
  | None => ret (not_found "Region" region_id)
  | Some region =>
      if negb (_user_can_modify_region region user) then raise no_write_access
      else
        q <- query (fun db => RegionProduct_of_region db region) ;;
        (if (0 <? List.length q)%nat
         then for_each q (fun relation => session_delete (ERegionProduct relation)) ;;
              session_flush
         else ret tt) ;;
        session_delete (ERegion region) ;;
        session_commit ;;
        ret (Payload tt)
  end.

Definition add_region_product (region_id : Z) (body : ProductBody) (user : Z)
    : M (response unit) :=
  region <- query (fun db => Region_query_get db region_id) ;;
  match region with
  | None => ret (not_found "Region" region_id)
  | Some region =>
      if negb (_user_can_modify_region region user) then raise no_write_access
      else
        product <- query (fun db => Product_query_get db (body_id body)) ;;
        match product with
        | None => ret (not_found "Product" (body_id body))
        | Some product =>
            q <- query (fun db => RegionProduct_of_pair db region product) ;;
            (if (List.length q =? 0)%nat then
               let relation :=
                 {| rp_region_id := r_id region;
                    rp_product_id := p_id product;
                    rp_enabled :=
                      match body_enabled body with
                      | Some b => b
                      | None => true
                      end |} in
               session_add_region_product relation ;;
               session_commit
             else
               match body_enabled body with
               | Some b =>
                   for_each q (fun relation => set_enabled relation b) ;;
                   session_commit
               | None => ret tt
               end) ;;
            ret (Payload tt)
        end
  end.

(** [request_json] is the body the source reads from [flask.request]. *)
Definition delete_region_product (region_id user : Z)
    (request_json : ProductBody) : M (response unit) :=
  region <- query (fun db => Region_query_get db region_id) ;;
  match region with
  | None => ret (not_found "Region" region_id)
  | Some region =>
      if negb (_user_can_modify_region region user) then raise no_write_access
      else
        product <- query (fun db => Product_query_get db (body_id request_json)) ;;
        match product with
        | None => ret (not_found "Product" (body_id request_json))
        | Some product =>
            q <- query (fun db => RegionProduct_of_pair db region product) ;;
            (if (0 <? List.length q)%nat
             then for_each q (fun relation =>
                                session_delete (ERegionProduct relation)) ;;
                  session_commit
             else ret tt) ;;
            ret (Payload tt)
        end
  end.

Local Close Scope session_scope.
Local Open Scope result_scope.

(** A condition on columns of a table that the query does not join is
    evaluated over the product with that table; each association object
    comes back once, so a row stays when some row of the table
    satisfies the condition. *)
Definition where_any {A T} (q : list A) (table : list T) (c : T -> cond)
    : list A :=
  filter (fun _ => existsb (fun t => holds (c t)) table) q.

(** [r.product] of an association; [None] when the product is gone. *)
Definition rp_product (db : Db) (r : RegionProduct) : option Product :=
  Product_query_get db (rp_product_id r).

Definition rp_region (db : Db) (r : RegionProduct) : option Region :=
  Region_query_get db (rp_region_id r).

Definition region_product_view (db : Db) (r : RegionProduct)
    : result RegionProductView :=
  match rp_region db r, rp_product db r with
  | Some region, Some product =>
      Ok {| rpv_region_id := r_id region;
            rpv_product_id := p_id product;
            rpv_product := product;
            rpv_enabled := rp_enabled r;
            rpv_href := dict_union (_region_href region) (_product_href product) |}
  | _, _ => Raise AttributeError
  end.

Fixpoint collect {A B} (f : A -> result B) (l : list A) : result (list B) :=
  match l with
  | [] => Ok []
  | x :: l' => y <- f x ;; ys <- collect f l' ;; Ok (y :: ys)
  end.

Definition list_region_products (db : Db) (region_id user : Z)
    (filter_ : dict sqlval) : result (response (list RegionProductView)) :=
  match Region_query_get db region_id with
  | None => Ok (not_found "Region" region_id)
  | Some region =>
      if negb (_user_can_access_region region user) then Raise no_access
      else
        let products_relation := RegionProduct_of_region db region in
        products_relation <-
          (if dict_mem filter_ "name" then
             pattern <- subscript filter_ "enabled" ;;
             Ok (where_any products_relation (regions db)
                   (fun g => ilike (VStr (r_name g)) pattern))
           else Ok products_relation) ;;
        products_relation <-
          (if dict_mem filter_ "enabled" then
             v <- subscript filter_ "enabled" ;;
             Ok (where_any products_relation (products db)
                   (fun p => col_eq (VBool (p_enabled p)) v))
           else Ok products_relation) ;;
        views <- collect (region_product_view db) products_relation ;;
        Ok (Payload views)
  end.

(** ** Usage *)

Definition region_to_usage (region : Region) (user : Z) : Usage :=
  {| user_quota := r_user_quota region;
     user_quota_usage := get_user_quota_usage region user;
     total_quota := r_total_quota region;
     total_quota_usage := get_total_quota_usage region |}.

Definition get_usage (db : Db) (region_id user : Z) : result (response Usage) :=
  match Region_query_get db region_id with
  | None => Ok (not_found "Region" region_id)
  | Some region =>
      if negb (_user_can_access_region region user) then Raise no_access
      else Ok (Payload (region_to_usage region user))
  end.

(** One turn of the loop of [add_usage]: the value stored under [key]. *)
Definition add_usage_key (usage1 : dict pyval) (usage2 : option (dict pyval))
    (key : string) : result pyval :=
  try_except
    (a <- subscript usage1 key ;;
     b <- subscript_opt usage2 key ;;
     py_add a b)
    (a <- subscript usage1 key ;;
     if truthy a then Ok a
     else
       b <- subscript_opt usage2 key ;;
       if truthy b then Ok b else Ok PNone).

Fixpoint add_usage_loop (usage1 : dict pyval) (usage2 : option (dict pyval))
    (keys : list string) (result_ : dict pyval) : result (dict pyval) :=
  match keys with
  | [] => Ok result_
  | key :: keys' =>
      v <- add_usage_key usage1 usage2 key ;;
      add_usage_loop usage1 usage2 keys' (dict_set result_ key v)
  end.

(** [usage1.keys()] on [None] is an [AttributeError]. *)
Definition add_usage (usage1 usage2 : option (dict pyval))
    : result (dict pyval) :=
  match usage1 with
  | None => Raise AttributeError
  | Some d1 => add_usage_loop d1 usage2 (dict_keys d1) []
  end.

(** Body of the loop of [get_all_usage] for one more region. *)
Definition get_all_usage_step (user : Z) (data : dict Usage) (region : Region)
    : result (dict Usage) :=
  let current_region_usage := region_to_usage region user in
  let data := dict_set data (str_Z (r_id region)) current_region_usage in
  all <- subscript data "all" ;;
  uq <- add_usage (user_quota all) (user_quota current_region_usage) ;;
  uqu <- add_usage (user_quota_usage all)
           (user_quota_usage current_region_usage) ;;
  tq <- add_usage (total_quota all) (total_quota current_region_usage) ;;
  tqu <- add_usage (total_quota_usage all)
           (total_quota_usage current_region_usage) ;;
  Ok (dict_set data "all"
        {| user_quota := Some uq; user_quota_usage := Some uqu;
           total_quota := Some tq; total_quota_usage := Some tqu |}).

Fixpoint get_all_usage_loop (user : Z) (data : dict Usage) (rest : list Region)
    : result (dict Usage) :=
  match rest with
  | [] => Ok data
  | region :: rest' =>
      data' <- get_all_usage_step user data region ;;
      get_all_usage_loop user data' rest'
  end.

Definition get_all_usage (db : Db) (user : Z) : result (response (dict Usage)) :=
  match _query_regions_with_permissions db user with
  | [] => Ok (Problem 404 "Not Found" "No regions exist")
  | region0 :: rest =>
      let data := [("all", region_to_usage region0 user)] in
      let data := dict_set data (str_Z (r_id region0))
                    (region_to_usage region0 user) in
      data <- get_all_usage_loop user data rest ;;
      Ok (Payload data)
  end.

End Handlers.

(** ** A helper of the API tests ([tests/test_api/test_satellite.py])

    [_db_add_row_side_effect(data_added)] gives the function that the
    mocked [db.session.add] runs on a row: it sets on the row every
    attribute of [data_added]. A row is the dictionary of its
    attributes. *)
Definition _db_add_row_side_effect {V} (data_added : dict V) (row : dict V)
    : dict V :=
  fold_left (fun row kv => dict_set row (fst kv) (snd kv)) data_added row.

(** ** The policies in the words of the specification *)

Section Spec_policy.
Context {AU : AuthUtils}.

(** Write: "caller is admin OR caller is not in the owner group". *)
Definition spec_can_modify (region : Region) (u : Z) : bool :=
  user_is_admin u || negb (mem (r_owner_group_id region) (user_group_ids u)).

(** Read: admin, or the region is shared, or the caller belongs to the
    users group, or to the owner group. *)
Definition spec_can_access (region : Region) (u : Z) : bool :=
  user_is_admin u
  || match r_users_group_id region with None => true | Some _ => false end
  || match r_users_group_id region with
     | Some g => mem g (user_group_ids u)
     | None => false
     end
  || mem (r_owner_group_id region) (user_group_ids u).

End Spec_policy.

(** A call was refused with [Forbidden]. *)
Definition denied {A} (r : result A) : bool :=
  match r with
  | Raise (Forbidden _) => true
  | _ => false
  end.

(** What the value-level merge of [add_usage] computes for one key that
    both dictionaries hold. *)
Definition merge_limit (a b : pyval) : pyval :=
  match a, b with
  | PInt x, PInt y => PInt (x + y)
  | _, _ => if truthy a then a else if truthy b then b else PNone
  end.

(** The filters of [list_regions] as one predicate on a region. *)
Section Spec_filters.
Context {AU : AuthUtils} {ST : Storage}.

Definition filter_holds (filter_ : dict sqlval) (key : string)
    (c : sqlval -> cond) : bool :=
  match dict_get filter_ key with
  | Some v => holds (c v)
  | None => true
  end.

Definition region_selected (db : Db) (user : Z) (filter_ : dict sqlval)
    (r : Region) : bool :=
  _user_can_access_region r user
  && filter_holds filter_ "name" (ilike (VStr (r_name r)))
  && filter_holds filter_ "location" (ilike (location_name db r))
  && filter_holds filter_ "enabled" (col_eq (VBool (r_enabled r)))
  && filter_holds filter_ "reservations_enabled"
       (col_eq (VBool (r_reservations_enabled r)))
  && filter_holds filter_ "owner_group_id" (col_eq (VInt (r_owner_group_id r)))
  && filter_holds filter_ "owner_group_name"
       (col_eq (group_name db (Some (r_owner_group_id r))))
  && filter_holds filter_ "users_group_id"
       (col_eq (opt_int (r_users_group_id r)))
  && filter_holds filter_ "users_group_name"
       (col_eq (group_name db (r_users_group_id r))).

(** Ordering a query neither adds nor drops rows. *)
Definition db_sort_permutes : Prop :=
  forall db q key columns, Permutation (db_sort db q key columns) q.

End Spec_filters.

(** ** An in-memory instance of the collaborators *)

Module Sample.

(** User 1 is an admin; user 2 is in group 10, user 3 in group 20,
    user 4 in groups 10 and 30; anybody else is in no group. *)
#[export] Instance auth : AuthUtils := {|
  user_is_admin := fun u => u =? 1;
  user_group_ids := fun u =>
    if u =? 2 then [10] else if u =? 3 then [20]
    else if u =? 4 then [10; 30] else []
|}.

Definition lower (c : ascii) : ascii :=
  let n := nat_of_ascii c in
  if ((65 <=? n) && (n <=? 90))%nat then ascii_of_nat (n + 32) else c.

(** [LIKE] with [%] and [_], letters compared without case. *)
Fixpoint like (p s : string) : bool :=
  match p with
  | EmptyString => match s with EmptyString => true | _ => false end
  | String c p' =>
      if Ascii.eqb c "%" then
        (fix any (s : string) : bool :=
           like p' s
           || match s with
              | EmptyString => false
              | String _ s' => any s'
              end) s
      else
        match s with
        | EmptyString => false
        | String d s' =>
            (Ascii.eqb c "_" || Ascii.eqb (lower c) (lower d)) && like p' s'
        end
  end.

Definition sample_ilike (c v : sqlval) : cond :=
  match c, v with
  | VStr s, VStr p => Some (like p s)
  | VNull, _ | _, VNull => None
  | _, _ => Some false
  end.

Fixpoint insert_by (le : Region -> Region -> bool) (x : Region)
    (l : list Region) : list Region :=
  match l with
  | [] => [x]
  | y :: l' => if le x y then x :: y :: l' else y :: insert_by le x l'
  end.

Definition sort_by (le : Region -> Region -> bool) (l : list Region)
    : list Region :=
  fold_right (insert_by le) [] l.

(** Orders by region name; a leading [-] asks for descending order. *)
Definition sample_db_sort (db : Db) (q : list Region) (key : string)
    (columns : dict string) : list Region :=
  match key with
  | String "-" _ => sort_by (fun a b => String.leb (r_name b) (r_name a)) q
  | _ => sort_by (fun a b => String.leb (r_name a) (r_name b)) q
  end.

Definition sample_next_region_id (db : Db) : Z :=
  1 + fold_right Z.max 0 (map r_id (regions db)).

(** A storage engine that accepts every flush and commit. *)
#[export] Instance storage : Storage := {|
  ilike := sample_ilike;
  db_sort := sample_db_sort;
  next_region_id := sample_next_region_id;
  rejects := fun _ => false
|}.

(** The same engine, except that it rejects a commit that would remove
    a region. *)
Definition failing_storage : Storage := {|
  ilike := sample_ilike;
  db_sort := sample_db_sort;
  next_region_id := sample_next_region_id;
  rejects := fun s =>
    existsb (fun ev => match ev with EvDelete (ERegion _) => true | _ => false end)
            (log s)
|}.

#[export] Instance lab_model : LabModel := {|
  region_body := Region;
  from_dict := fun body => body;
  update_from_dict := fun region body => with_id body (r_id region);
  get_user_quota_usage := fun _ _ => Some [("num_vms", PInt 1)];
  get_total_quota_usage := fun _ => Some [("num_vms", PInt 2)]
|}.

#[export] Instance product_api : ProductApi := {|
  _product_href := fun p => [("product", Link ".rhub_api_lab_product_get_product" (p_id p))]
|}.

Definition quota (n : Z) : option (dict pyval) := Some [("num_vms", PInt n)].

Definition mk_region (i : Z) (name : string) (enabled : bool)
    (owner : Z) (users : option Z) (uq : option (dict pyval)) : Region :=
  {| r_id := i; r_name := name; r_enabled := enabled;
     r_reservations_enabled := true; r_location_id := None;
     r_owner_group_id := owner; r_users_group_id := users;
     r_tower_id := 1; r_openstack_id := 1;
     r_satellite_id := None; r_dns_id := None;
     r_user_quota := uq; r_total_quota := quota 100 |}.

Definition mk_db (rs : list Region) (rps : list RegionProduct) : Db :=
  {| regions := rs;
     products := [ {| p_id := 1; p_name := "rhel"; p_enabled := true |};
                   {| p_id := 2; p_name := "ocp"; p_enabled := false |} ];
     region_products := rps;
     locations := [];
     groups := [ {| grp_id := 10; grp_name := "owners" |};
                 {| grp_id := 20; grp_name := "users" |} ] |}.

(** Seven regions, five of them enabled with a name starting [prod]. *)
Definition lab : Db :=
  mk_db
    [ mk_region 1 "prod-a" true 10 None (quota 5);
      mk_region 2 "dev" true 10 None (quota 5);
      mk_region 3 "Prod-b" true 10 None (quota 5);
      mk_region 4 "prod-c" true 10 (Some 20) (quota 5);
      mk_region 5 "prod-off" false 10 None (quota 5);
      mk_region 6 "PROD-d" true 10 None (quota 5);
      mk_region 7 "prod-e" true 10 None (quota 5) ]
    [ {| rp_region_id := 1; rp_product_id := 1; rp_enabled := true |};
      {| rp_region_id := 1; rp_product_id := 2; rp_enabled := false |};
      {| rp_region_id := 2; rp_product_id := 1; rp_enabled := true |} ].

(** A database whose only region is restricted to group 20. *)
Definition restricted : Db :=
  mk_db [ mk_region 1 "closed" true 10 (Some 20) (quota 5) ] [].

(** Two regions, one without a user quota, in the two possible orders. *)
Definition unmetered : Region := mk_region 1 "unmetered" true 10 None None.
Definition metered : Region := mk_region 2 "metered" true 10 None (quota 5).

Definition unmetered_first : Db := mk_db [unmetered; metered] [].
Definition metered_first : Db := mk_db [metered; unmetered] [].

End Sample.

(** ** Definitions used to state the properties *)

(** A session computation, or a result, that is never [Forbidden]. *)
Definition quiet {A} (m : M A) : Prop :=
  forall s, denied (fst (m s)) = false.

Definition calm {A} (r : result A) : Prop := denied r = false.

(** The value [add_usage] stores for an entry of its first dictionary when
    the second one holds the key too. *)
Definition merged_entry (d2 : dict pyval) (kv : string * pyval)
    : string * pyval :=
  (fst kv,
   merge_limit (snd kv)
     (match dict_get d2 (fst kv) with Some b => b | None => PNone end)).

(** A limit that is [None] or not negative. *)
Definition nonneg (v : pyval) : Prop :=
  match v with
  | PNone => True
  | PInt z => 0 <= z
  end.

(** What a write handler answers to a caller without write access: the
    region exists and the write check fails. *)
Definition write_refused {AU : AuthUtils} (s : Session) (region_id u : Z)
    : bool :=
  match Region_query_get (pending s) region_id with
  | Some region => negb (spec_can_modify region u)
  | None => false
  end.

Definition read_refused {AU : AuthUtils} (db : Db) (region_id u : Z) : bool :=
  match Region_query_get db region_id with
  | Some region => negb (spec_can_access region u)
  | None => false
  end.

(** The association table once the rows [q] are deleted one by one. *)
Definition without_rows (q : list RegionProduct) (db : Db) : Db :=
  set_region_products db
    (filter (fun x => negb (existsb (RegionProduct_eqb x) q))
            (region_products db)).

Definition delete_events (q : list RegionProduct) : list event :=
  map (fun r => EvDelete (ERegionProduct r)) q.

(** The session when the flush of the deleted associations is reached. *)
Definition staged_flush (db : Db) (region : Region) : Session :=
  let rows := RegionProduct_of_region db region in
  {| committed := db;
     pending := without_rows rows db;
     log := delete_events rows |}.

(** The session once the region is marked for deletion, after its
    associations were deleted and flushed. *)
Definition staged_delete (db : Db) (region : Region) : Session :=
  let rows := RegionProduct_of_region db region in
  let gone := filter (fun x => negb (r_id x =? r_id region)) (regions db) in
  match rows with
  | [] =>
      {| committed := db;
         pending := set_regions db gone;
         log := [EvDelete (ERegion region)] |}
  | _ :: _ =>
      {| committed := db;
         pending := set_regions (without_rows rows db) gone;
         log := delete_events rows ++ [EvFlush; EvDelete (ERegion region)] |}
  end.

Definition flush_rejected {ST : Storage} (db : Db) (region : Region) : bool :=
  match RegionProduct_of_region db region with
  | [] => false
  | _ :: _ => rejects (staged_flush db region)
  end.

Definition pair_match (region : Region) (product : Product)
    (x : RegionProduct) : bool :=
  (rp_region_id x =? r_id region) && (rp_product_id x =? p_id product).

Definition with_enabled (b : bool) (x : RegionProduct) : RegionProduct :=
  {| rp_region_id := rp_region_id x;
     rp_product_id := rp_product_id x;
     rp_enabled := b |}.

(** What the loop of assignments does to one stored row. *)
Definition assign_enabled (b : bool) (q : list RegionProduct)
    (x : RegionProduct) : RegionProduct :=
  fold_left (fun x r => if RegionProduct_eqb x r then with_enabled b x else x)
            q x.

(** The row that links a region and a product. *)
Definition new_row (region : Region) (product : Product) (b : bool)
    : RegionProduct :=
  {| rp_region_id := r_id region; rp_product_id := p_id product;
     rp_enabled := b |}.

Definition default_enabled (e : option bool) : bool :=
  match e with Some b => b | None => true end.

(** The association table after an add-or-update of one pair, in the
    words of the specification: insert a row (enabled unless the request
    says otherwise) when the pair has none; otherwise set the flag of the
    pair's rows when the request carries one, and change nothing when it
    does not. *)
Definition upserted (region : Region) (product : Product) (e : option bool)
    (rps : list RegionProduct) : list RegionProduct :=
  match filter (pair_match region product) rps with
  | [] => rps ++ [new_row region product (default_enabled e)]
  | _ :: _ =>
      match e with
      | Some b =>
          map (fun x => if pair_match region product x
                        then with_enabled b x else x) rps
      | None => rps
      end
  end.

(** The session a successful [add_region_product] leaves behind. *)
Definition upsert_session (db : Db) (region : Region) (product : Product)
    (e : option bool) : Session :=
  let table := upserted region product e (region_products db) in
  match filter (pair_match region product) (region_products db), e with
  | [], _ =>
      {| committed := set_region_products db table;
         pending := set_region_products db table;
         log := [EvAdd (ERegionProduct
                          (new_row region product (default_enabled e)));
                 EvCommit] |}
  | _ :: _, Some _ =>
      {| committed := set_region_products db table;
         pending := set_region_products db table;
         log := [EvCommit] |}
  | _ :: _, None => begin db
  end.

(** A session computation that leaves the database as it was whenever
    it raises. *)
Definition atomic {A} (m : M A) : Prop :=
  forall s e, fst (m s) = Raise e -> committed (snd (m s)) = committed s.

(** A session computation that never writes to the database. *)
Definition still {A} (m : M A) : Prop :=
  forall s, committed (snd (m s)) = committed s.

(** The session a successful [delete_region_product] leaves behind. *)
Definition removal_session (db : Db) (region : Region) (product : Product)
    : Session :=
  match filter (pair_match region product) (region_products db) with
  | [] => begin db
  | a :: q =>
      let table :=
        filter (fun x => negb (pair_match region product x))
               (region_products db) in
      {| committed := set_region_products db table;
         pending := set_region_products db table;
         log := delete_events (a :: q) ++ [EvCommit] |}
  end.

(** What [add_usage] stores for an entry of its first dictionary whose
    limit is neither [None] nor [0]: the sum when the second operand holds
    an integer under the key, the limit itself otherwise. *)
Definition sum_or_keep (usage2 : option (dict pyval)) (kv : string * pyval)
    : string * pyval :=
  (fst kv,
   match snd kv, usage2 with
   | PInt x, Some d2 =>
       match dict_get d2 (fst kv) with
       | Some (PInt y) => PInt (x + y)
       | _ => PInt x
       end
   | v, _ => v
   end).

(** The merge of two usage views whose dictionaries have the same keys,
    field by field and limit by limit. *)
Definition merge_dict (d1 d2 : dict pyval) : dict pyval :=
  map (merged_entry d2) d1.

Definition merge_field (x y : option (dict pyval)) : option (dict pyval) :=
  match x, y with
  | Some d1, Some d2 => Some (merge_dict d1 d2)
  | _, _ => None
  end.

Definition merge_usage (a b : Usage) : Usage :=
  {| user_quota := merge_field (user_quota a) (user_quota b);
     user_quota_usage := merge_field (user_quota_usage a) (user_quota_usage b);
     total_quota := merge_field (total_quota a) (total_quota b);
     total_quota_usage :=
       merge_field (total_quota_usage a) (total_quota_usage b) |}.

(** The keys of the four fields of a view ([None] for an absent field). *)
Definition field_keys (x : option (dict pyval)) : option (list string) :=
  option_map dict_keys x.

Definition shape (a : Usage)
    : option (list string) * option (list string)
      * option (list string) * option (list string) :=
  (field_keys (user_quota a), field_keys (user_quota_usage a),
   field_keys (total_quota a), field_keys (total_quota_usage a)).

(** A field that is a dictionary without repeated key. *)
Definition keyed (x : option (dict pyval)) : Prop :=
  match x with
  | Some d => NoDup (dict_keys d)
  | None => False
  end.

Definition well_keyed (a : Usage) : Prop :=
  keyed (user_quota a) /\ keyed (user_quota_usage a)
  /\ keyed (total_quota a) /\ keyed (total_quota_usage a).

(** The entry [get_all_usage] stores for one region. *)
Definition usage_entry {LM : LabModel} (u : Z) (region : Region)
    : string * Usage :=
  (str_Z (r_id region), region_to_usage region u).

(** A view whose four fields are dictionaries without repeated key and
    without negative limit. *)
Definition nonneg_field (x : option (dict pyval)) : Prop :=
  match x with
  | Some d => Forall (fun kv => nonneg (snd kv)) d
  | None => True
  end.

Definition sound (a : Usage) : Prop :=
  well_keyed a
  /\ nonneg_field (user_quota a) /\ nonneg_field (user_quota_usage a)
  /\ nonneg_field (total_quota a) /\ nonneg_field (total_quota_usage a).

(** A field that is a dictionary with the keys [ks], none repeated, and
    no negative limit; a view with such fields. *)
Definition field_over (ks : list string) (x : option (dict pyval)) : Prop :=
  field_keys x = Some ks /\ NoDup ks /\ nonneg_field x.

Definition usage_over (ks : list string * list string
                            * list string * list string) (a : Usage) : Prop :=
  let '(k1, k2, k3, k4) := ks in
  field_over k1 (user_quota a) /\ field_over k2 (user_quota_usage a)
  /\ field_over k3 (total_quota a) /\ field_over k4 (total_quota_usage a).

(** * Properties *)

(** ** Computations that never answer [Forbidden] *)

Create HintDb quiet.

Lemma quiet_ret {A} (a : A) : quiet (ret a).
Proof. intros s. reflexivity. Qed.

Lemma quiet_query {A} (f : Db -> A) : quiet (query f).
Proof. intros s. reflexivity. Qed.

Lemma quiet_bind {A B} (m : M A) (k : A -> M B) :
  quiet m -> (forall a, quiet (k a)) -> quiet (bind m k).
Proof.
  intros Hm Hk s. unfold bind. specialize (Hm s).
  destruct (m s) as [[a | e] s']; simpl in *.
  - apply Hk.
  - exact Hm.
Qed.

Lemma quiet_for_each {A} (l : list A) (f : A -> M unit) :
  (forall x, quiet (f x)) -> quiet (for_each l f).
Proof.
  intros Hf. induction l as [| x l IH]; simpl.
  - apply quiet_ret.
  - apply quiet_bind; auto.
Qed.

Lemma quiet_if {A} (b : bool) (m1 m2 : M A) :
  quiet m1 -> quiet m2 -> quiet (if b then m1 else m2).
Proof. destruct b; auto. Qed.

Section Quiet_session.
Context {ST : Storage}.

Lemma quiet_session_add_region r : quiet (session_add_region r).
Proof. intros s. reflexivity. Qed.

Lemma quiet_session_add_region_product rp :
  quiet (session_add_region_product rp).
Proof. intros s. reflexivity. Qed.

Lemma quiet_session_delete e : quiet (session_delete e).
Proof. intros s. reflexivity. Qed.

Lemma quiet_session_flush : quiet session_flush.
Proof. intros s. unfold session_flush. destruct (rejects s); reflexivity. Qed.

Lemma quiet_session_commit : quiet session_commit.
Proof. intros s. unfold session_commit. destruct (rejects s); reflexivity. Qed.

Lemma quiet_set_enabled rp b : quiet (set_enabled rp b).
Proof. intros s. reflexivity. Qed.

Lemma quiet_assign_region r r' : quiet (assign_region r r').
Proof. intros s. reflexivity. Qed.

End Quiet_session.

#[local] Hint Resolve quiet_ret quiet_query quiet_bind quiet_for_each quiet_if
  quiet_session_add_region quiet_session_add_region_product
  quiet_session_delete quiet_session_flush quiet_session_commit
  quiet_set_enabled quiet_assign_region : quiet.

(** ** Access policy *)

Section Policy_facts.
Context {AU : AuthUtils}.

Lemma can_modify_spec region u :
  _user_can_modify_region region u = spec_can_modify region u.
Proof.
  unfold _user_can_modify_region, spec_can_modify.
  destruct (user_is_admin u); reflexivity.
Qed.

Lemma can_access_spec region u :
  _user_can_access_region region u = spec_can_access region u.
Proof.
  unfold _user_can_access_region, spec_can_access.
  destruct (user_is_admin u); simpl; [reflexivity |].
  destruct (r_users_group_id region); reflexivity.
Qed.

(** The condition of the scoped query is never unknown: it is the
    read check, row by row. *)
Lemma scope_condition r groups :
  holds (or_ [ is_null (opt_int (r_users_group_id r));
               col_in (opt_int (r_users_group_id r)) groups;
               col_in (VInt (r_owner_group_id r)) groups ])
  = match r_users_group_id r with
    | None => true
    | Some g => mem g groups || mem (r_owner_group_id r) groups
    end.
Proof.
  unfold or_, mem; simpl.
  destruct (r_users_group_id r) as [g |]; simpl.
  - destruct (existsb (Z.eqb g) groups),
             (existsb (Z.eqb (r_owner_group_id r)) groups); reflexivity.
  - reflexivity.
Qed.

Lemma scoped_regions_filter db u :
  _query_regions_with_permissions db u
  = filter (fun r => _user_can_access_region r u) (regions db).
Proof.
  unfold _query_regions_with_permissions, _user_can_access_region, where_.
  destruct (user_is_admin u).
  - induction (regions db) as [| r l IH]; simpl; [reflexivity |].
    now rewrite <- IH.
  - apply filter_ext. intros r. apply scope_condition.
Qed.

End Policy_facts.

Section Policy_theorems.
Context {AU : AuthUtils} {ST : Storage} {LM : LabModel} {PA : ProductApi}.

(** Every write handler starts with the same lookup and check. *)
Lemma write_guard_refuses {A} region_id u (k : Region -> M (response A)) s :
  (forall region, quiet (k region)) ->
  denied (fst (bind (query (fun db => Region_query_get db region_id))
                 (fun region =>
                    match region with
                    | None => ret (not_found "Region" region_id)
                    | Some region =>
                        if negb (_user_can_modify_region region u)
                        then raise no_write_access
                        else k region
                    end) s))
  = write_refused s region_id u.
Proof.
  intros Hk. unfold write_refused, bind, query; simpl.
  destruct (Region_query_get (pending s) region_id) as [region |];
    [| reflexivity].
  rewrite can_modify_spec.
  destruct (spec_can_modify region u); simpl; [apply Hk | reflexivity].
Qed.

Lemma update_region_refuses region_id body u s :
  denied (fst (update_region region_id body u s)) = write_refused s region_id u.
Proof.
  unfold update_region. apply write_guard_refuses.
  intros region. auto 6 with quiet.
Qed.

Lemma delete_region_refuses region_id u s :
  denied (fst (delete_region region_id u s)) = write_refused s region_id u.
Proof.
  unfold delete_region. apply write_guard_refuses.
  intros region. auto 10 with quiet.
Qed.

Lemma add_region_product_refuses region_id body u s :
  denied (fst (add_region_product region_id body u s))
  = write_refused s region_id u.
Proof.
  unfold add_region_product. apply write_guard_refuses.
  intros region. apply quiet_bind; [auto with quiet |].
  intros [product |]; [| auto with quiet].
  apply quiet_bind; [auto with quiet |]. intros q.
  apply quiet_bind; [| auto with quiet].
  apply quiet_if; [auto with quiet |].
  destruct (body_enabled body); auto 6 with quiet.
Qed.

Lemma delete_region_product_refuses region_id u body s :
  denied (fst (delete_region_product region_id u body s))
  = write_refused s region_id u.
Proof.
  unfold delete_region_product. apply write_guard_refuses.
  intros region. apply quiet_bind; [auto with quiet |].
  intros [product |]; auto 10 with quiet.
Qed.

(** C1. The write check is exactly "admin, or not a member of the
    owner group", and each of the four write handlers ([update_region],
    [delete_region], [add_region_product], [delete_region_product])
    answers [Forbidden] exactly when the region exists and that check
    fails; so a member of the owner group who is not an admin is
    refused. *)
Theorem write_permission_check (region_id u : Z) (s : Session) :
  (forall region,
      _user_can_modify_region region u
      = user_is_admin u
        || negb (mem (r_owner_group_id region) (user_group_ids u)))
  /\ (forall region,
      negb (_user_can_modify_region region u)
      = negb (user_is_admin u)
        && mem (r_owner_group_id region) (user_group_ids u))
  /\ (forall body,
      denied (fst (update_region region_id body u s))
      = write_refused s region_id u)
  /\ denied (fst (delete_region region_id u s)) = write_refused s region_id u
  /\ (forall body,
      denied (fst (add_region_product region_id body u s))
      = write_refused s region_id u)
  /\ (forall body,
      denied (fst (delete_region_product region_id u body s))
      = write_refused s region_id u).
Proof.
  split; [intros region; apply can_modify_spec |].
  split.
  { intros region. rewrite can_modify_spec. unfold spec_can_modify.
    rewrite negb_orb, negb_involutive. reflexivity. }
  split; [intros body; apply update_region_refuses |].
  split; [apply delete_region_refuses |].
  split; intros body.
  - apply add_region_product_refuses.
  - apply delete_region_product_refuses.
Qed.

(** Read handlers. *)

Lemma calm_rbind {A B} (m : result A) (k : A -> result B) :
  calm m -> (forall a, calm (k a)) -> calm (rbind m k).
Proof. intros Hm Hk. destruct m as [a | e]; simpl; [apply Hk | exact Hm]. Qed.

Lemma calm_subscript {V} (d : dict V) k : calm (subscript d k).
Proof. unfold calm, subscript. destruct (dict_get d k); reflexivity. Qed.

Lemma calm_collect {A B} (f : A -> result B) l :
  (forall x, calm (f x)) -> calm (collect f l).
Proof.
  intros Hf. induction l as [| x l IH]; simpl; [reflexivity |].
  apply calm_rbind; [apply Hf |]. intros y.
  apply calm_rbind; [exact IH |]. intros ys. reflexivity.
Qed.

Lemma calm_region_product_view db r : calm (region_product_view db r).
Proof.
  unfold calm, region_product_view.
  destruct (rp_region db r), (rp_product db r); reflexivity.
Qed.

Lemma get_region_refuses db region_id u :
  denied (get_region db region_id u) = read_refused db region_id u.
Proof.
  unfold get_region, read_refused.
  destruct (Region_query_get db region_id) as [region |]; [| reflexivity].
  rewrite can_access_spec. destruct (spec_can_access region u); reflexivity.
Qed.

Lemma get_usage_refuses db region_id u :
  denied (get_usage db region_id u) = read_refused db region_id u.
Proof.
  unfold get_usage, read_refused.
  destruct (Region_query_get db region_id) as [region |]; [| reflexivity].
  rewrite can_access_spec. destruct (spec_can_access region u); reflexivity.
Qed.

Lemma list_region_products_refuses db region_id u filter_ :
  denied (list_region_products db region_id u filter_)
  = read_refused db region_id u.
Proof.
  unfold list_region_products, read_refused.
  destruct (Region_query_get db region_id) as [region |]; [| reflexivity].
  rewrite can_access_spec.
  destruct (spec_can_access region u); [simpl | reflexivity].
  apply calm_rbind.
  { destruct (dict_mem filter_ "name"); [| reflexivity].
    apply calm_rbind; [apply calm_subscript | reflexivity]. }
  intros q1. apply calm_rbind.
  { destruct (dict_mem filter_ "enabled"); [| reflexivity].
    apply calm_rbind; [apply calm_subscript | reflexivity]. }
  intros q2. apply calm_rbind; [| reflexivity].
  apply calm_collect. intros r. apply calm_region_product_view.
Qed.

Lemma scoped_regions_spec db u :
  _query_regions_with_permissions db u
  = filter (fun r => spec_can_access r u) (regions db).
Proof.
  rewrite scoped_regions_filter. apply filter_ext.
  intros r. apply can_access_spec.
Qed.

Lemma scoped_regions_admin db u :
  _query_regions_with_permissions db u
  = if user_is_admin u then regions db
    else filter (fun r => spec_can_access r u) (regions db).
Proof.
  destruct (user_is_admin u) eqn:E.
  - unfold _query_regions_with_permissions. now rewrite E.
  - apply scoped_regions_spec.
Qed.

(** C2. The read check is exactly "admin, or shared region, or member of
    the users group, or member of the owner group"; [get_region],
    [get_usage] and [list_region_products] answer [Forbidden] exactly when
    the region exists and that check fails; the scoped region set holds
    exactly the regions that pass the check, in the order of the
    collection, and is the whole collection for an admin; and it is the
    set [list_regions] pages through and [get_all_usage] folds. *)
Theorem read_permission_check (db : Db) (region_id u : Z) :
  (forall region,
      _user_can_access_region region u = spec_can_access region u)
  /\ denied (get_region db region_id u) = read_refused db region_id u
  /\ denied (get_usage db region_id u) = read_refused db region_id u
  /\ (forall filter_,
      denied (list_region_products db region_id u filter_)
      = read_refused db region_id u)
  /\ _query_regions_with_permissions db u
     = filter (fun r => spec_can_access r u) (regions db)
  /\ _query_regions_with_permissions db u
     = (if user_is_admin u then regions db
        else filter (fun r => spec_can_access r u) (regions db))
  /\ (forall page limit,
      list_regions db u [] None page limit
      = {| data := map region_view
                     (limit_offset (_query_regions_with_permissions db u)
                        limit (page * limit));
           total := List.length (_query_regions_with_permissions db u) |})
  /\ get_all_usage db u
     = match _query_regions_with_permissions db u with
       | [] => Ok (Problem 404 "Not Found" "No regions exist")
       | region0 :: rest =>
           rbind
             (get_all_usage_loop u
                (dict_set [("all", region_to_usage region0 u)]
                   (str_Z (r_id region0)) (region_to_usage region0 u))
                rest)
             (fun data => Ok (Payload data))
       end.
Proof.
  split; [intros region; apply can_access_spec |].
  split; [apply get_region_refuses |].
  split; [apply get_usage_refuses |].
  split; [intros f; apply list_region_products_refuses |].
  split; [apply scoped_regions_spec |].
  split; [apply scoped_regions_admin |].
  split; [reflexivity | reflexivity].
Qed.

End Policy_theorems.

(** ** Merging usage views *)

Lemma merge_limit_sum x y : merge_limit (PInt x) (PInt y) = PInt (x + y).
Proof. reflexivity. Qed.

Lemma merge_limit_left a : truthy a = true -> merge_limit a PNone = a.
Proof. destruct a as [| x]; simpl; intros H; [discriminate | now rewrite H]. Qed.

Lemma merge_limit_right b : truthy b = true -> merge_limit PNone b = b.
Proof. destruct b as [| y]; simpl; intros H; [discriminate | now rewrite H]. Qed.

Lemma merge_limit_none : merge_limit PNone PNone = PNone.
Proof. reflexivity. Qed.

Lemma merge_limit_comm a b : merge_limit a b = merge_limit b a.
Proof.
  destruct a as [| x], b as [| y]; simpl; try reflexivity.
  now rewrite Z.add_comm.
Qed.

Lemma merge_limit_nonneg a b :
  nonneg a -> nonneg b -> nonneg (merge_limit a b).
Proof.
  destruct a as [| x], b as [| y]; simpl; intros Ha Hb; try exact I.
  - destruct (y =? 0); simpl; [exact I | exact Hb].
  - destruct (x =? 0); simpl; [exact I | exact Ha].
  - lia.
Qed.

(** On limits that are not negative the merge is associative. *)
Lemma merge_limit_assoc a b c :
  nonneg a -> nonneg b -> nonneg c ->
  merge_limit (merge_limit a b) c = merge_limit a (merge_limit b c).
Proof.
  destruct a as [| x], b as [| y], c as [| z]; simpl; intros Ha Hb Hc;
    repeat match goal with
           | |- context [?n =? 0] =>
               destruct (Z.eqb_spec n 0); simpl
           end;
    try reflexivity; try lia; try (f_equal; lia).
Qed.

(** It is not on all integers: a sum that reaches [0] is then taken for
    an absent limit. *)
Example merge_limit_not_assoc :
  merge_limit (merge_limit (PInt 1) (PInt (-1))) PNone = PNone
  /\ merge_limit (PInt 1) (merge_limit (PInt (-1)) PNone) = PInt 0.
Proof. split; reflexivity. Qed.

(** So, key by key, folding limits that are not negative gives the same
    value in every order. *)
Lemma fold_merge_limit_permutation l l' :
  Permutation l l' ->
  forall a, Forall nonneg l -> nonneg a ->
  fold_left merge_limit l a = fold_left merge_limit l' a.
Proof.
  induction 1 as [| x l l' Hperm IH | x y l | l l' l'' H1 IH1 H2 IH2];
    intros a Hl Ha; simpl.
  - reflexivity.
  - inversion Hl; subst. apply IH; [assumption |].
    now apply merge_limit_nonneg.
  - inversion Hl as [| ? ? Hy Hl']; subst.
    inversion Hl' as [| ? ? Hx Hl'']; subst.
    f_equal.
    rewrite !merge_limit_assoc by assumption.
    f_equal. apply merge_limit_comm.
  - rewrite IH1 by assumption. apply IH2; [| assumption].
    eapply Permutation_Forall; eassumption.
Qed.

(** On a key that both dictionaries hold, [add_usage] stores the merge of
    the two limits. *)
Lemma add_usage_key_present d1 d2 key a b :
  dict_get d1 key = Some a ->
  dict_get d2 key = Some b ->
  add_usage_key d1 (Some d2) key = Ok (merge_limit a b).
Proof.
  intros H1 H2. unfold add_usage_key, subscript_opt, subscript.
  rewrite H1, H2. simpl.
  destruct a as [| x], b as [| y]; simpl; try reflexivity.
  - destruct (y =? 0); reflexivity.
  - destruct (x =? 0); reflexivity.
Qed.

(** With no second dictionary, a limit that is [None] or [0] in the first
    one cannot be merged: the fallback subscripts [None] again. *)
Lemma add_usage_key_absent d1 key a :
  dict_get d1 key = Some a ->
  add_usage_key d1 None key = if truthy a then Ok a else Raise TypeError.
Proof.
  intros H1. unfold add_usage_key, subscript_opt, subscript.
  rewrite H1. simpl. destruct (truthy a); reflexivity.
Qed.

Lemma dict_set_fresh {V} (d : dict V) k v :
  ~ In k (dict_keys d) -> dict_set d k v = (d ++ [(k, v)])%list.
Proof.
  induction d as [| [k' v'] d IH]; simpl; intros Hk; [reflexivity |].
  destruct (String.eqb_spec k' k) as [-> | _]; [tauto |].
  rewrite IH; tauto.
Qed.

Lemma dict_get_in {V} (d : dict V) k v :
  NoDup (dict_keys d) -> In (k, v) d -> dict_get d k = Some v.
Proof.
  induction d as [| [k' v'] d IH]; simpl; intros Hnd Hin; [destruct Hin |].
  inversion Hnd as [| ? ? Hnot Hnd']; subst.
  destruct Hin as [Heq | Hin].
  - injection Heq as -> ->. now rewrite String.eqb_refl.
  - destruct (String.eqb_spec k' k) as [-> | _]; [| now apply IH].
    exfalso. apply Hnot. change k with (fst (k, v)). now apply in_map.
Qed.

Lemma add_usage_loop_pointwise d1 d2 rest acc :
  NoDup (dict_keys acc ++ dict_keys rest) ->
  (forall k v, In (k, v) rest -> dict_get d1 k = Some v) ->
  (forall k, In k (dict_keys rest) -> dict_mem d2 k = true) ->
  add_usage_loop d1 (Some d2) (dict_keys rest) acc
  = Ok (acc ++ map (merged_entry d2) rest)%list.
Proof.
  revert acc. induction rest as [| [k v] rest IH]; intros acc Hnd H1 H2; simpl.
  - now rewrite app_nil_r.
  - assert (Hk2 : dict_mem d2 k = true) by (apply H2; simpl; auto).
    unfold dict_mem in Hk2.
    destruct (dict_get d2 k) as [b |] eqn:E2; [| discriminate].
    rewrite (add_usage_key_present d1 d2 k v b);
      [| apply H1; simpl; auto | exact E2].
    simpl. rewrite dict_set_fresh.
    + rewrite IH.
      * unfold merged_entry at 2. simpl. rewrite E2.
        now rewrite <- app_assoc.
      * unfold dict_keys in *. rewrite map_app. simpl.
        rewrite <- app_assoc. exact Hnd.
      * intros k' v' Hin. apply H1. simpl. auto.
      * intros k' Hin. apply H2. simpl. auto.
    + apply NoDup_remove_2 in Hnd. intros Hin. apply Hnd.
      apply in_or_app. auto.
Qed.

(** On two dictionaries with the keys of the first all in the second,
    [add_usage] merges limit by limit: the sum of two integers, the one
    operand that is neither [None] nor [0] otherwise, else [None]. *)
Lemma add_usage_pointwise d1 d2 :
  NoDup (dict_keys d1) ->
  (forall k, In k (dict_keys d1) -> dict_mem d2 k = true) ->
  add_usage (Some d1) (Some d2) = Ok (map (merged_entry d2) d1).
Proof.
  intros Hnd Hkeys. unfold add_usage.
  rewrite add_usage_loop_pointwise; auto.
  intros k v Hin. now apply dict_get_in.
Qed.

(** C3. [add_usage] does not keep a lone present operand in every case:
    a present [0] merged with [None] becomes [None]; a sub-field that is
    [None] in the first view and a mapping in the second raises
    [AttributeError]; a mapping holding a [0] merged with a sub-field that
    is [None] raises [TypeError]; and two [None] sub-fields raise instead of
    giving [None]. *)
Theorem add_usage_drops_present_operand :
  add_usage (Some [("num_vms", PInt 0)]) (Some [("num_vms", PNone)])
  = Ok [("num_vms", PNone)]
  /\ add_usage None (Some [("num_vms", PInt 5)]) = Raise AttributeError
  /\ add_usage (Some [("num_vms", PInt 0)]) None = Raise TypeError
  /\ add_usage None None = Raise AttributeError.
Proof. repeat split. Qed.

(** C4. The aggregate of [get_all_usage] depends on the order of the
    regions: with one region that has no user quota and one that has,
    the fold raises [AttributeError] when the region without quota comes
    first, and gives an aggregate when it comes second. *)
Theorem get_all_usage_depends_on_order :
  Permutation (regions Sample.unmetered_first) (regions Sample.metered_first)
  /\ @get_all_usage Sample.auth Sample.lab_model Sample.unmetered_first 5
     = Raise AttributeError
  /\ exists data,
       @get_all_usage Sample.auth Sample.lab_model Sample.metered_first 5
       = Ok (Payload data)
       /\ dict_get data "all"
          = Some {| user_quota := Some [("num_vms", PInt 5)];
                    user_quota_usage := Some [("num_vms", PInt 2)];
                    total_quota := Some [("num_vms", PInt 200)];
                    total_quota_usage := Some [("num_vms", PInt 4)] |}.
Proof.
  split; [apply perm_swap |].
  split; [reflexivity |].
  eexists. split; reflexivity.
Qed.

Section Usage_theorems.
Context {AU : AuthUtils} {LM : LabModel}.

(** C9. When no region is in the caller's scope, [get_all_usage] answers
    with the problem [404 Not Found], "No regions exist": neither a
    payload nor an exception. *)
Theorem get_all_usage_no_regions (db : Db) (u : Z) :
  _query_regions_with_permissions db u = [] ->
  get_all_usage db u = Ok (Problem 404 "Not Found" "No regions exist").
Proof. intros H. unfold get_all_usage. now rewrite H. Qed.

(** The problem is answered in that case only. *)
Lemma get_all_usage_problem_only_if_empty (db : Db) (u : Z) status title detail :
  get_all_usage db u = Ok (Problem status title detail) ->
  _query_regions_with_permissions db u = [].
Proof.
  unfold get_all_usage.
  destruct (_query_regions_with_permissions db u) as [| r0 rest];
    [reflexivity |].
  destruct (get_all_usage_loop _ _ _); simpl; discriminate.
Qed.

End Usage_theorems.

Lemma get_all_usage_no_regions_witness :
  @_query_regions_with_permissions Sample.auth Sample.restricted 5 = []
  /\ @get_all_usage Sample.auth Sample.lab_model Sample.restricted 5
     = Ok (Problem 404 "Not Found" "No regions exist").
Proof.
  split; [reflexivity |].
  apply (@get_all_usage_no_regions Sample.auth Sample.lab_model). reflexivity.
Defined.

(** ** Products of a region *)

Section Product_listing.
Context {AU : AuthUtils} {ST : Storage} {PA : ProductApi}.

(** C7. A filter that holds a product-name pattern and no [enabled] entry
    makes [list_region_products] raise [KeyError], for a region the
    caller may read: the pattern is looked up under the key [enabled]. *)
Theorem list_region_products_name_filter_raises
    (db : Db) (region_id u : Z) (filter_ : dict sqlval)
    (region : Region) (pattern : sqlval) :
  Region_query_get db region_id = Some region ->
  _user_can_access_region region u = true ->
  dict_get filter_ "name" = Some pattern ->
  dict_get filter_ "enabled" = None ->
  list_region_products db region_id u filter_ = Raise (KeyError "enabled").
Proof.
  intros Hregion Haccess Hname Henabled.
  unfold list_region_products, dict_mem, subscript.
  rewrite Hregion, Haccess, Hname, Henabled. reflexivity.
Qed.

(** With both entries present, the answer does not depend on the name
    pattern at all. *)
Lemma list_region_products_ignores_name_pattern
    (db : Db) (region_id u : Z) (filter_ : dict sqlval) (p1 p2 : sqlval) :
  list_region_products db region_id u (("name", p1) :: filter_)
  = list_region_products db region_id u (("name", p2) :: filter_).
Proof. reflexivity. Qed.

End Product_listing.

Lemma list_region_products_name_filter_raises_witness :
  @list_region_products Sample.auth Sample.storage Sample.product_api
    Sample.lab 1 5 [("name", VStr "rhel")]
  = Raise (KeyError "enabled").
Proof.
  apply (@list_region_products_name_filter_raises
           Sample.auth Sample.storage Sample.product_api
           Sample.lab 1 5 [("name", VStr "rhel")]
           (Sample.mk_region 1 "prod-a" true 10 None (Sample.quota 5))
           (VStr "rhel")); reflexivity.
Defined.

(** ** Listing regions: filters, pages and the count *)

Lemma filter_twice {A} (f g : A -> bool) (l : list A) :
  filter g (filter f l) = filter (fun x => f x && g x) l.
Proof.
  induction l as [| x l IH]; simpl; [reflexivity |].
  destruct (f x); simpl; [destruct (g x) |]; now rewrite IH.
Qed.

Lemma filter_by_spec {A} (filter_ : dict sqlval) (key : string)
    (c : sqlval -> A -> cond) (f : A -> bool) (l : list A) :
  filter_by filter_ key c (filter f l)
  = filter (fun r => f r && filter_holds filter_ key (fun v => c v r)) l.
Proof.
  unfold filter_by, filter_holds, where_.
  destruct (dict_get filter_ key) as [v |].
  - apply filter_twice.
  - apply filter_ext. intros r. now rewrite andb_true_r.
Qed.

Lemma length_limit_offset {A} (q : list A) (limit offset : nat) :
  List.length (limit_offset q limit offset)
  = Nat.min limit (List.length q - offset).
Proof. unfold limit_offset. now rewrite length_firstn, length_skipn. Qed.

Section Region_listing.
Context {AU : AuthUtils} {ST : Storage}.

(** Without a sort key the query is the collection restricted to the
    regions in scope that pass every filter present. *)
Lemma list_regions_query_unsorted db u filter_ :
  list_regions_query db u filter_ None
  = filter (region_selected db u filter_) (regions db).
Proof.
  unfold list_regions_query. rewrite scoped_regions_filter.
  repeat rewrite filter_by_spec. reflexivity.
Qed.

Lemma list_regions_query_sorted db u filter_ sort :
  db_sort_permutes ->
  Permutation (list_regions_query db u filter_ sort)
              (filter (region_selected db u filter_) (regions db)).
Proof.
  intros Hsort. rewrite <- list_regions_query_unsorted.
  unfold list_regions_query.
  destruct sort as [[| c k] |]; try apply Permutation_refl.
  apply Hsort.
Qed.

(** C8. [list_regions] returns as [data] the views of the rows from
    offset [page * limit], at most [limit] of them, of the query made of
    the regions in scope that pass the filters (ordered when a sort key is
    given), and as [total] the number of regions in scope that pass the
    filters, whatever the page. *)
Theorem list_regions_pagination
    (db : Db) (u : Z) (filter_ : dict sqlval) (sort : option string)
    (page limit : nat) :
  db_sort_permutes ->
  let selected := filter (region_selected db u filter_) (regions db) in
  let q := list_regions_query db u filter_ sort in
  Permutation q selected
  /\ list_regions_query db u filter_ None = selected
  /\ data (list_regions db u filter_ sort page limit)
     = map region_view (firstn limit (skipn (page * limit) q))
  /\ total (list_regions db u filter_ sort page limit) = List.length selected
  /\ List.length (data (list_regions db u filter_ sort page limit))
     = Nat.min limit (List.length selected - page * limit).
Proof.
  intros Hsort selected q.
  assert (Hperm : Permutation q selected)
    by (apply list_regions_query_sorted; exact Hsort).
  split; [exact Hperm |].
  split; [apply list_regions_query_unsorted |].
  split; [reflexivity |].
  split; [apply (Permutation_length Hperm) |].
  unfold list_regions; cbn [data]. fold q.
  rewrite length_map, length_limit_offset.
  now rewrite (Permutation_length Hperm).
Qed.

End Region_listing.

Lemma insert_by_permutation le x l :
  Permutation (Sample.insert_by le x l) (x :: l).
Proof.
  induction l as [| y l IH]; simpl; [apply Permutation_refl |].
  destruct (le x y); [apply Permutation_refl |].
  eapply perm_trans; [apply perm_skip, IH | apply perm_swap].
Qed.

Lemma sort_by_permutation le l : Permutation (Sample.sort_by le l) l.
Proof.
  induction l as [| x l IH]; simpl; [apply perm_nil |].
  eapply perm_trans; [apply insert_by_permutation | apply perm_skip, IH].
Qed.

Lemma sample_db_sort_permutes : @db_sort_permutes Sample.storage.
Proof.
  intros db q key columns. simpl. unfold Sample.sample_db_sort.
  destruct key as [| c k]; [apply sort_by_permutation |].
  destruct (Ascii.eqb_spec c "-"); subst; try apply sort_by_permutation.
  destruct c as [[] [] [] [] [] [] [] []]; apply sort_by_permutation.
Qed.

(** Five regions match [name ILIKE 'prod%'] and [enabled = true] for
    user 3; page 1 with two rows a page holds two of them and the count
    stays five. *)
Lemma list_regions_pagination_witness :
  @db_sort_permutes Sample.storage
  /\ total (@list_regions Sample.auth Sample.storage Sample.lab 3
              [("name", VStr "prod%"); ("enabled", VBool true)]
              (Some "-name") 1 2) = 5%nat
  /\ List.length
       (data (@list_regions Sample.auth Sample.storage Sample.lab 3
                [("name", VStr "prod%"); ("enabled", VBool true)]
                (Some "-name") 1 2)) = 2%nat.
Proof.
  split; [exact sample_db_sort_permutes |].
  destruct (@list_regions_pagination Sample.auth Sample.storage Sample.lab 3
              [("name", VStr "prod%"); ("enabled", VBool true)]
              (Some "-name") 1 2 sample_db_sort_permutes)
    as (_ & _ & _ & Htotal & Hlen).
  split; [rewrite Htotal | rewrite Hlen]; reflexivity.
Defined.

(** ** Sessions: creating and deleting regions *)

Lemma holds_Some b : holds (Some b) = b.
Proof. destruct b; reflexivity. Qed.

Lemma region_rows db region :
  RegionProduct_of_region db region
  = filter (fun rp => rp_region_id rp =? r_id region) (region_products db).
Proof.
  unfold RegionProduct_of_region, where_. apply filter_ext.
  intros rp. simpl. apply holds_Some.
Qed.

Lemma pair_rows db region product :
  RegionProduct_of_pair db region product
  = filter (fun rp => (rp_region_id rp =? r_id region)
                      && (rp_product_id rp =? p_id product))
           (region_products db).
Proof.
  unfold RegionProduct_of_pair, where_. apply filter_ext.
  intros rp. simpl. apply holds_Some.
Qed.

Lemma RegionProduct_eqb_eq a b : RegionProduct_eqb a b = true <-> a = b.
Proof.
  unfold RegionProduct_eqb. destruct a as [ar ap ae], b as [br bp be]; simpl.
  rewrite !andb_true_iff, !Z.eqb_eq, Bool.eqb_true_iff. split.
  - intros [[-> ->] ->]. reflexivity.
  - intros H. injection H as -> -> ->. auto.
Qed.

Lemma Region_query_get_id db region_id region :
  Region_query_get db region_id = Some region -> r_id region = region_id.
Proof.
  unfold Region_query_get. intros H. apply find_some in H.
  destruct H as [_ H]. now apply Z.eqb_eq in H.
Qed.

Section Session_facts.
Context {ST : Storage}.

Lemma for_each_session_delete q s :
  for_each q (fun relation => session_delete (ERegionProduct relation)) s
  = (Ok tt, {| committed := committed s;
               pending := without_rows q (pending s);
               log := log s ++ delete_events q |}).
Proof.
  revert s. induction q as [| a q IH]; intros s.
  - destruct s as [c [rs ps rps ls gs] l]; simpl.
    unfold ret, without_rows, set_region_products; simpl.
    now rewrite app_nil_r, filter_true.
  - simpl. unfold bind. simpl. rewrite IH. unfold record; simpl.
    unfold without_rows, set_region_products; simpl.
    rewrite filter_twice, <- app_assoc. simpl.
    do 3 f_equal. apply filter_ext. intros x.
    now rewrite negb_orb.
Qed.

(** Deleting all the rows of one region, one by one, leaves the rows of
    the other regions. *)
Lemma without_region_rows db region :
  region_products (without_rows (RegionProduct_of_region db region) db)
  = filter (fun x => negb (rp_region_id x =? r_id region)) (region_products db).
Proof.
  unfold without_rows; simpl. rewrite region_rows.
  apply filter_ext_in. intros x Hx. f_equal.
  destruct (rp_region_id x =? r_id region) eqn:E.
  - apply existsb_exists. exists x. split.
    + apply filter_In. auto.
    + now apply RegionProduct_eqb_eq.
  - destruct (existsb _ _) eqn:Ex; [| reflexivity].
    apply existsb_exists in Ex. destruct Ex as (y & Hy & Hxy).
    apply RegionProduct_eqb_eq in Hxy. subst y.
    apply filter_In in Hy. destruct Hy as [_ Hy]. congruence.
Qed.

End Session_facts.

Section Create_region.
Context {ST : Storage} {LM : LabModel}.

(** C10. [create_region] makes no permission check (it is not even given
    the authorisation helpers): its outcome is the same for every caller,
    it never answers [Forbidden], and the region is added and committed
    unless the storage rejects the commit, in which case the database is
    left as it was. *)
Theorem create_region_no_authorization
    (body : region_body) (u u' : Z) (s : Session) :
  let region := with_id (from_dict body) (next_region_id (pending s)) in
  let added :=
    record (EvAdd (ERegion region)) s
      (set_regions (pending s) (regions (pending s) ++ [region])) in
  create_region body u s = create_region body u' s
  /\ denied (fst (create_region body u s)) = false
  /\ (if rejects added
      then fst (create_region body u s) = Raise StorageError
           /\ committed (snd (create_region body u s)) = committed s
      else fst (create_region body u s) = Ok (Payload (region_view region))
           /\ regions (committed (snd (create_region body u s)))
              = (regions (pending s) ++ [region])%list
           /\ log (snd (create_region body u s))
              = (log s ++ [EvAdd (ERegion region); EvCommit])%list).
Proof.
  intros region added.
  split; [reflexivity |].
  unfold create_region, bind, session_add_region, session_commit.
  fold region. fold added.
  destruct (rejects added); simpl.
  - auto.
  - rewrite <- app_assoc. auto.
Qed.

End Create_region.

Lemma find_filter_negb {A} (f : A -> bool) (l : list A) :
  find f (filter (fun x => negb (f x)) l) = None.
Proof.
  induction l as [| x l IH]; simpl; [reflexivity |].
  destruct (f x) eqn:E; simpl; [exact IH | now rewrite E].
Qed.

Lemma filter_filter_negb {A} (f : A -> bool) (l : list A) :
  filter f (filter (fun x => negb (f x)) l) = [].
Proof.
  induction l as [| x l IH]; simpl; [reflexivity |].
  destruct (f x) eqn:E; simpl; [exact IH | now rewrite E].
Qed.

Lemma filter_nil_negb {A} (f : A -> bool) (l : list A) :
  filter f l = [] -> filter (fun x => negb (f x)) l = l.
Proof.
  induction l as [| x l IH]; simpl; [reflexivity |].
  destruct (f x); simpl; [discriminate |]. intros H. now rewrite IH.
Qed.

Lemma filter_nil_false {A} (f : A -> bool) (l : list A) x :
  filter f l = [] -> In x l -> f x = false.
Proof.
  intros H Hx. destruct (f x) eqn:E; [| reflexivity].
  assert (Hin : In x (filter f l)) by (apply filter_In; auto).
  rewrite H in Hin. destruct Hin.
Qed.

Lemma event_eq_dec (a b : event) : {a = b} + {a <> b}.
Proof.
  repeat decide equality;
    try apply Z.eq_dec; try apply string_dec; try apply Bool.bool_dec.
Defined.

Lemma delete_events_no_commit q :
  count_occ event_eq_dec (delete_events q) EvCommit = 0%nat.
Proof.
  induction q as [| a q IH]; simpl; [reflexivity |].
  destruct (event_eq_dec (EvDelete (ERegionProduct a)) EvCommit);
    [discriminate | exact IH].
Qed.

Section Delete_region.
Context {AU : AuthUtils} {ST : Storage}.

(** A run of [delete_region] by a caller with write access, step by step. *)
Lemma delete_region_run db region_id u region :
  Region_query_get db region_id = Some region ->
  _user_can_modify_region region u = true ->
  delete_region region_id u (begin db)
  = if flush_rejected db region
    then (Raise StorageError, staged_flush db region)
    else if rejects (staged_delete db region)
         then (Raise StorageError, staged_delete db region)
         else (Ok (Payload tt),
               {| committed := pending (staged_delete db region);
                  pending := pending (staged_delete db region);
                  log := log (staged_delete db region) ++ [EvCommit] |}).
Proof.
  intros Hregion Hcan.
  unfold delete_region, bind at 1, query at 1. simpl.
  rewrite Hregion, Hcan. simpl.
  unfold bind at 1, query at 1. simpl.
  unfold flush_rejected, staged_delete, staged_flush.
  destruct (RegionProduct_of_region db region) as [| a q] eqn:Erows.
  - simpl. unfold bind, ret, session_delete, session_commit, record. simpl.
    destruct (rejects _); reflexivity.
  - change (0 <? List.length (a :: q))%nat with true. cbv iota.
    unfold bind at 1. unfold bind at 1.
    rewrite for_each_session_delete. simpl.
    unfold session_flush. simpl.
    destruct (rejects _); [reflexivity |].
    unfold bind, ret, session_delete, session_commit, record. simpl.
    rewrite <- app_assoc. simpl.
    destruct (rejects _); reflexivity.
Qed.

Lemma staged_delete_pending db region :
  regions (pending (staged_delete db region))
  = filter (fun x => negb (r_id x =? r_id region)) (regions db)
  /\ region_products (pending (staged_delete db region))
     = filter (fun x => negb (rp_region_id x =? r_id region))
              (region_products db)
  /\ products (pending (staged_delete db region)) = products db
  /\ locations (pending (staged_delete db region)) = locations db
  /\ groups (pending (staged_delete db region)) = groups db.
Proof.
  pose proof (without_region_rows db region) as Hwithout.
  unfold staged_delete. revert Hwithout.
  destruct (RegionProduct_of_region db region) as [| a q] eqn:Erows;
    intros Hwithout.
  - simpl. repeat split. rewrite region_rows in Erows.
    symmetry. now apply filter_nil_negb.
  - cbn [pending regions region_products products locations groups
         set_regions]. repeat split. exact Hwithout.
Qed.

Lemma staged_delete_log db region :
  log (staged_delete db region)
  = (delete_events (RegionProduct_of_region db region)
     ++ match RegionProduct_of_region db region with
        | [] => []
        | _ :: _ => [EvFlush]
        end
     ++ [EvDelete (ERegion region)])%list.
Proof.
  unfold staged_delete.
  destruct (RegionProduct_of_region db region); reflexivity.
Qed.

(** C6. [delete_region] by a caller with write access, on a region with
    associations [rows]: either it succeeds, and then the session saw the
    deletion of every row of [rows], a flush (when there are rows), the
    deletion of the region and one commit, in that order, and the database
    holds neither the region nor any association of it, everything else
    being as before; or the storage rejected the flush or the commit, and
    then nothing was committed: the database is as it was, and after
    rollback the region and all its associations are in place. It succeeds
    whenever the storage rejects nothing. *)
Theorem delete_region_cascade (db : Db) (region_id u : Z) (region : Region) :
  Region_query_get db region_id = Some region ->
  _user_can_modify_region region u = true ->
  let rows := RegionProduct_of_region db region in
  let out := delete_region region_id u (begin db) in
  ((fst out = Ok (Payload tt)
    /\ log (snd out)
       = (delete_events rows
          ++ match rows with [] => [] | _ :: _ => [EvFlush] end
          ++ [EvDelete (ERegion region); EvCommit])%list
    /\ count_occ event_eq_dec (log (snd out)) EvCommit = 1%nat
    /\ regions (committed (snd out))
       = filter (fun x => negb (r_id x =? region_id)) (regions db)
    /\ region_products (committed (snd out))
       = filter (fun x => negb (rp_region_id x =? region_id))
                (region_products db)
    /\ products (committed (snd out)) = products db
    /\ locations (committed (snd out)) = locations db
    /\ groups (committed (snd out)) = groups db
    /\ RegionProduct_of_region (committed (snd out)) region = []
    /\ Region_query_get (committed (snd out)) region_id = None)
   \/
   (fst out = Raise StorageError
    /\ committed (snd out) = db
    /\ count_occ event_eq_dec (log (snd out)) EvCommit = 0%nat
    /\ Region_query_get (pending (rollback (snd out))) region_id = Some region
    /\ RegionProduct_of_region (pending (rollback (snd out))) region = rows))
  /\ ((forall s, rejects s = false) -> fst out = Ok (Payload tt)).
Proof.
  intros Hregion Hcan rows out.
  pose proof (Region_query_get_id _ _ _ Hregion) as Hid.
  pose proof (staged_delete_pending db region)
    as (Hregions & Hrows & Hproducts & Hlocations & Hgroups).
  unfold out. rewrite (delete_region_run _ _ _ _ Hregion Hcan).
  split.
  - destruct (flush_rejected db region) eqn:Eflush;
      [| destruct (rejects (staged_delete db region)) eqn:Ecommit];
      unfold rollback; cbn [fst snd committed pending log].
    + right. unfold staged_flush; cbn [committed log].
      repeat split; auto. apply delete_events_no_commit.
    + right. rewrite staged_delete_log. fold rows.
      assert (Hc : committed (staged_delete db region) = db)
        by (unfold staged_delete; destruct (RegionProduct_of_region db region);
            reflexivity).
      rewrite Hc. repeat split; auto.
      rewrite !count_occ_app, delete_events_no_commit.
      destruct rows; reflexivity.
    + left. rewrite staged_delete_log. fold rows. rewrite <- Hid.
      repeat split; auto.
      * now rewrite <- !app_assoc.
      * rewrite !count_occ_app, delete_events_no_commit.
        destruct rows; reflexivity.
      * rewrite region_rows, Hrows. apply filter_filter_negb.
      * unfold Region_query_get. rewrite Hregions.
        apply (find_filter_negb (fun x => r_id x =? r_id region)).
  - intros Hnever. unfold flush_rejected.
    rewrite !Hnever. destruct (RegionProduct_of_region db region); reflexivity.
Qed.

End Delete_region.

Lemma delete_region_cascade_witness :
  Region_query_get Sample.lab 1
  = Some (Sample.mk_region 1 "prod-a" true 10 None (Sample.quota 5))
  /\ fst (@delete_region Sample.auth Sample.storage 1 3 (begin Sample.lab))
     = Ok (Payload tt).
Proof.
  split; [reflexivity |].
  apply (proj2 (@delete_region_cascade Sample.auth Sample.storage Sample.lab 1 3
                  (Sample.mk_region 1 "prod-a" true 10 None (Sample.quota 5))
                  eq_refl eq_refl)).
  reflexivity.
Defined.

(** With a storage that rejects the commit, the same call raises and the
    database keeps the region and its two associations. *)
Example delete_region_rejected :
  let out :=
    @delete_region Sample.auth Sample.failing_storage 1 3 (begin Sample.lab) in
  fst out = Raise StorageError
  /\ committed (snd out) = Sample.lab
  /\ List.length (RegionProduct_of_region (pending (rollback (snd out)))
                    (Sample.mk_region 1 "prod-a" true 10 None (Sample.quota 5)))
     = 2%nat.
Proof. repeat split. Qed.

(** ** Product associations *)

Lemma assign_enabled_done b q x :
  assign_enabled b q (with_enabled b x) = with_enabled b x.
Proof.
  induction q as [| r q IH]; simpl; [reflexivity |].
  destruct (RegionProduct_eqb (with_enabled b x) r); exact IH.
Qed.

Lemma assign_enabled_member b q x :
  In x q -> assign_enabled b q x = with_enabled b x.
Proof.
  induction q as [| r q IH]; simpl; [intros [] |]. intros Hin.
  destruct (RegionProduct_eqb x r) eqn:E.
  - apply assign_enabled_done.
  - destruct Hin as [-> | Hin]; [| exact (IH Hin)].
    assert (RegionProduct_eqb x x = true) by now apply RegionProduct_eqb_eq.
    congruence.
Qed.

Lemma assign_enabled_other b q x :
  ~ In x q -> assign_enabled b q x = x.
Proof.
  induction q as [| r q IH]; simpl; [reflexivity |]. intros Hnot.
  destruct (RegionProduct_eqb x r) eqn:E.
  - apply RegionProduct_eqb_eq in E. subst r. exfalso. auto.
  - apply IH. auto.
Qed.

Lemma assign_enabled_pair b region product l x :
  In x l ->
  assign_enabled b (filter (pair_match region product) l) x
  = if pair_match region product x then with_enabled b x else x.
Proof.
  intros Hin. destruct (pair_match region product x) eqn:E.
  - apply assign_enabled_member. apply filter_In. auto.
  - apply assign_enabled_other. intros H. apply filter_In in H.
    destruct H as [_ H]. congruence.
Qed.

Section Session_assign.
Context {ST : Storage}.

Lemma for_each_set_enabled q b s :
  for_each q (fun relation => set_enabled relation b) s
  = (Ok tt, {| committed := committed s;
               pending := set_region_products (pending s)
                            (map (assign_enabled b q)
                                 (region_products (pending s)));
               log := log s |}).
Proof.
  revert s. induction q as [| r q IH]; intros s.
  - destruct s as [c [rs ps rps ls gs] l]; simpl.
    unfold ret, set_region_products; simpl. now rewrite map_id.
  - simpl. unfold bind. simpl. rewrite IH. simpl.
    unfold set_region_products; simpl. now rewrite map_map.
Qed.

End Session_assign.

Lemma pair_match_new_row region product b :
  pair_match region product (new_row region product b) = true.
Proof. unfold pair_match, new_row; simpl. now rewrite !Z.eqb_refl. Qed.

Lemma filter_pair_map region product b l :
  filter (pair_match region product)
    (map (fun x => if pair_match region product x
                   then with_enabled b x else x) l)
  = map (with_enabled b) (filter (pair_match region product) l).
Proof.
  induction l as [| x l IH]; simpl; [reflexivity |].
  destruct (pair_match region product x) eqn:E.
  - change (pair_match region product (with_enabled b x))
      with (pair_match region product x).
    rewrite E. simpl. now rewrite IH.
  - rewrite E. exact IH.
Qed.

(** The pair has one row after an insert, and as many as before after an
    update. *)
Lemma upserted_count region product e rps :
  List.length (filter (pair_match region product)
                 (upserted region product e rps))
  = Nat.max 1 (List.length (filter (pair_match region product) rps)).
Proof.
  unfold upserted.
  destruct (filter (pair_match region product) rps) as [| a q] eqn:E.
  - rewrite filter_app, E. simpl. now rewrite pair_match_new_row.
  - destruct e as [b |].
    + rewrite filter_pair_map, length_map, E. reflexivity.
    + rewrite E. reflexivity.
Qed.

Lemma upserted_length_existing region product e rps :
  filter (pair_match region product) rps <> [] ->
  List.length (upserted region product e rps) = List.length rps.
Proof.
  unfold upserted. intros H.
  destruct (filter (pair_match region product) rps); [congruence |].
  destruct e; [apply length_map | reflexivity].
Qed.

(** Two add-or-updates in a row of a pair that had no row. *)
Lemma upserted_twice region product e1 e2 rps :
  filter (pair_match region product) rps = [] ->
  upserted region product e2 (upserted region product e1 rps)
  = (rps ++ [new_row region product
               (match e2 with Some b => b | None => default_enabled e1 end)])%list.
Proof.
  intros Hnone. unfold upserted at 2. rewrite Hnone.
  unfold upserted. rewrite filter_app, Hnone. simpl.
  rewrite pair_match_new_row. destruct e2 as [b |]; [| reflexivity].
  rewrite map_app. simpl. rewrite pair_match_new_row. f_equal.
  rewrite <- (map_id rps) at 2. apply map_ext_in. intros x Hx.
  now rewrite (filter_nil_false _ _ _ Hnone Hx).
Qed.

Lemma set_region_products_same db :
  set_region_products db (region_products db) = db.
Proof. destruct db; reflexivity. Qed.

Lemma upsert_session_committed db region product e :
  committed (upsert_session db region product e)
  = set_region_products db (upserted region product e (region_products db)).
Proof.
  unfold upsert_session.
  destruct (filter (pair_match region product) (region_products db)) eqn:E;
    [reflexivity |].
  destruct e; [reflexivity |]. simpl.
  unfold upserted. rewrite E. symmetry. apply set_region_products_same.
Qed.

Section Add_region_product.
Context {AU : AuthUtils} {ST : Storage}.

(** A run of [add_region_product] by a caller with write access, on a
    storage that accepts the commit. *)
Lemma add_region_product_run db region_id body u region product :
  Region_query_get db region_id = Some region ->
  Product_query_get db (body_id body) = Some product ->
  _user_can_modify_region region u = true ->
  (forall s, rejects s = false) ->
  add_region_product region_id body u (begin db)
  = (Ok (Payload tt), upsert_session db region product (body_enabled body)).
Proof.
  intros Hregion Hproduct Hcan Hnever.
  unfold add_region_product, bind at 1, query at 1. simpl.
  rewrite Hregion, Hcan. simpl.
  unfold bind at 1, query at 1. simpl. rewrite Hproduct.
  unfold bind at 1, query at 1. simpl. rewrite pair_rows.
  unfold upsert_session, upserted. fold (pair_match region product).
  destruct (filter (pair_match region product) (region_products db))
    as [| a q] eqn:Erows.
  - simpl. unfold bind, ret, session_add_region_product, session_commit, record.
    simpl. rewrite Hnever. simpl.
    destruct (body_enabled body); reflexivity.
  - change (List.length (a :: q) =? 0)%nat with false. cbv iota.
    destruct (body_enabled body) as [b |]; [| reflexivity].
    unfold bind at 1. unfold bind at 1.
    rewrite for_each_set_enabled. simpl.
    unfold session_commit. rewrite Hnever. simpl.
    assert (Hmap : map (assign_enabled b (a :: q)) (region_products db)
                   = map (fun x => if pair_match region product x
                                   then with_enabled b x else x)
                         (region_products db)).
    { apply map_ext_in. intros x Hx.
      rewrite <- Erows. apply assign_enabled_pair. exact Hx. }
    rewrite Hmap. reflexivity.
Qed.

(** C5. [add_region_product] by a caller with write access, on a storage
    that accepts the commit. The first call leaves the association table
    as the add-or-update of the pair: when the pair had no row, exactly one
    row is appended, enabled unless the body says otherwise. A second call
    for the same pair adds no row (the table keeps its length and the pair
    its number of rows); it sets the flag of the pair's rows when the body
    carries [enabled], and leaves the session untouched (nothing assigned,
    nothing committed) when it does not. *)
Theorem add_region_product_upsert
    (db : Db) (region_id : Z) (body : ProductBody) (e2 : option bool) (u : Z)
    (region : Region) (product : Product) :
  Region_query_get db region_id = Some region ->
  Product_query_get db (body_id body) = Some product ->
  _user_can_modify_region region u = true ->
  (forall s, rejects s = false) ->
  let P := pair_match region product in
  let first := add_region_product region_id body u (begin db) in
  let db1 := committed (snd first) in
  let again :=
    add_region_product region_id
      {| body_id := body_id body; body_enabled := e2 |} u (begin db1) in
  let db2 := committed (snd again) in
  fst first = Ok (Payload tt)
  /\ region_products db1
     = upserted region product (body_enabled body) (region_products db)
  /\ List.length (filter P (region_products db1))
     = Nat.max 1 (List.length (filter P (region_products db)))
  /\ fst again = Ok (Payload tt)
  /\ List.length (region_products db2) = List.length (region_products db1)
  /\ List.length (filter P (region_products db2))
     = List.length (filter P (region_products db1))
  /\ match e2 with
     | None => snd again = begin db1
     | Some b =>
         region_products db2
         = map (fun x => if P x then with_enabled b x else x)
               (region_products db1)
     end
  /\ match filter P (region_products db) with
     | [] =>
         region_products db1
         = (region_products db
            ++ [new_row region product (default_enabled (body_enabled body))])%list
         /\ region_products db2
            = (region_products db
               ++ [new_row region product
                     (match e2 with
                      | Some b => b
                      | None => default_enabled (body_enabled body)
                      end)])%list
     | _ :: _ =>
         match body_enabled body with
         | None => snd first = begin db
         | Some b =>
             region_products db1
             = map (fun x => if P x then with_enabled b x else x)
                   (region_products db)
         end
     end.
Proof.
  intros Hregion Hproduct Hcan Hnever P first db1 again db2. subst P.
  assert (Hfirst : first
            = (Ok (Payload tt),
               upsert_session db region product (body_enabled body)))
    by (apply add_region_product_run; assumption).
  assert (Hdb1 : db1 = set_region_products db
                         (upserted region product (body_enabled body)
                            (region_products db))).
  { unfold db1. rewrite Hfirst. apply upsert_session_committed. }
  assert (Hcount1 :
            List.length (filter (pair_match region product)
                           (region_products db1))
            = Nat.max 1 (List.length (filter (pair_match region product)
                                        (region_products db)))).
  { rewrite Hdb1. apply upserted_count. }
  assert (Hsome : filter (pair_match region product) (region_products db1)
                  <> []).
  { intros H. rewrite H in Hcount1. cbn [List.length] in Hcount1. lia. }
  assert (Hagain : again
            = (Ok (Payload tt), upsert_session db1 region product e2)).
  { apply add_region_product_run; try assumption; rewrite Hdb1.
    - exact Hregion.
    - exact Hproduct. }
  assert (Hdb2 : region_products db2
                 = upserted region product e2 (region_products db1)).
  { unfold db2. rewrite Hagain. cbn [snd].
    rewrite upsert_session_committed. reflexivity. }
  split; [now rewrite Hfirst |].
  split; [now rewrite Hdb1 |].
  split; [exact Hcount1 |].
  split; [now rewrite Hagain |].
  split; [rewrite Hdb2; now apply upserted_length_existing |].
  split.
  { rewrite Hdb2. rewrite upserted_count. lia. }
  split.
  { destruct e2 as [b |].
    - rewrite Hdb2. unfold upserted.
      destruct (filter (pair_match region product) (region_products db1));
        [congruence | reflexivity].
    - rewrite Hagain. unfold upsert_session. simpl.
      destruct (filter (pair_match region product) (region_products db1));
        [congruence | reflexivity]. }
  destruct (filter (pair_match region product) (region_products db))
    as [| a q] eqn:Erows.
  - split.
    + rewrite Hdb1. simpl. unfold upserted. now rewrite Erows.
    + rewrite Hdb2, Hdb1. simpl. now apply upserted_twice.
  - destruct (body_enabled body) as [b |] eqn:Ebody.
    + rewrite Hdb1. simpl. unfold upserted. now rewrite Erows.
    + rewrite Hfirst. simpl. unfold upsert_session.
      now rewrite Erows.
Qed.

End Add_region_product.

Lemma add_region_product_upsert_witness :
  let out1 :=
    @add_region_product Sample.auth Sample.storage 3
      {| body_id := 2; body_enabled := None |} 3 (begin Sample.lab) in
  let out2 :=
    @add_region_product Sample.auth Sample.storage 3
      {| body_id := 2; body_enabled := None |} 3
      (begin (committed (snd out1))) in
  (forall s, @rejects Sample.storage s = false)
  /\ fst out1 = Ok (Payload tt)
  /\ fst out2 = Ok (Payload tt)
  /\ region_products (committed (snd out2))
     = (region_products Sample.lab
        ++ [{| rp_region_id := 3; rp_product_id := 2; rp_enabled := true |}])%list.
Proof.
  intros out1 out2.
  split; [reflexivity |].
  destruct (@add_region_product_upsert Sample.auth Sample.storage
              Sample.lab 3 {| body_id := 2; body_enabled := None |} None 3
              (Sample.mk_region 3 "Prod-b" true 10 None (Sample.quota 5))
              {| p_id := 2; p_name := "ocp"; p_enabled := false |}
              eq_refl eq_refl eq_refl (fun _ => eq_refl))
    as (H1 & _ & _ & H2 & _ & _ & _ & _ & H3).
  split; [exact H1 |]. split; [exact H2 |]. exact H3.
Defined.

(** * Further properties of the handlers *)

(** ** Interplay of the two checks *)

Section Policy_interplay.
Context {AU : AuthUtils}.

(** X1. A caller who is refused read access to a region passes its write
    check: the read check fails only for a caller outside the owner group,
    and being outside the owner group is what the write check asks. *)
Theorem cannot_read_can_modify (region : Region) (u : Z) :
  _user_can_access_region region u = false ->
  _user_can_modify_region region u = true.
Proof.
  unfold _user_can_access_region, _user_can_modify_region.
  destruct (user_is_admin u); [reflexivity |].
  destruct (r_users_group_id region) as [g |]; [| discriminate].
  intros H. apply orb_false_iff in H. destruct H as [_ H].
  now rewrite H.
Qed.

(** X2. A member of the owner group who is not an admin can read the
    region and cannot modify it. *)
Theorem owner_member_reads_only (region : Region) (u : Z) :
  user_is_admin u = false ->
  mem (r_owner_group_id region) (user_group_ids u) = true ->
  _user_can_access_region region u = true
  /\ _user_can_modify_region region u = false.
Proof.
  intros Hadmin Howner.
  unfold _user_can_access_region, _user_can_modify_region.
  rewrite Hadmin, Howner. split; [| reflexivity].
  destruct (r_users_group_id region); [apply orb_true_r | reflexivity].
Qed.

End Policy_interplay.

Lemma cannot_read_can_modify_witness :
  @_user_can_access_region Sample.auth
    (Sample.mk_region 1 "closed" true 10 (Some 20) (Sample.quota 5)) 5 = false
  /\ @_user_can_modify_region Sample.auth
       (Sample.mk_region 1 "closed" true 10 (Some 20) (Sample.quota 5)) 5 = true.
Proof.
  split; [reflexivity |].
  apply (@cannot_read_can_modify Sample.auth). reflexivity.
Defined.

Lemma owner_member_reads_only_witness :
  @_user_can_access_region Sample.auth
    (Sample.mk_region 1 "closed" true 10 (Some 20) (Sample.quota 5)) 2 = true
  /\ @_user_can_modify_region Sample.auth
       (Sample.mk_region 1 "closed" true 10 (Some 20) (Sample.quota 5)) 2 = false.
Proof.
  apply (@owner_member_reads_only Sample.auth); reflexivity.
Defined.

(** ** Order of the checks, and what a refused call leaves behind *)

Section Check_order.
Context {AU : AuthUtils} {ST : Storage} {LM : LabModel} {PA : ProductApi}.

(** X3. A region id that does not exist is answered with the problem
    [404 Not Found] by every handler that takes one, whoever the caller
    is (the existence check comes before the permission check), and the
    session is left as it was. *)
Theorem missing_region_not_found (s : Session) (region_id u : Z) :
  Region_query_get (pending s) region_id = None ->
  get_region (pending s) region_id u = Ok (not_found "Region" region_id)
  /\ get_usage (pending s) region_id u = Ok (not_found "Region" region_id)
  /\ (forall filter_,
        list_region_products (pending s) region_id u filter_
        = Ok (not_found "Region" region_id))
  /\ (forall body,
        update_region region_id body u s
        = (Ok (not_found "Region" region_id), s))
  /\ delete_region region_id u s = (Ok (not_found "Region" region_id), s)
  /\ (forall body,
        add_region_product region_id body u s
        = (Ok (not_found "Region" region_id), s))
  /\ (forall body,
        delete_region_product region_id u body s
        = (Ok (not_found "Region" region_id), s)).
Proof.
  intros Hnone.
  unfold get_region, get_usage, list_region_products, update_region,
    delete_region, add_region_product, delete_region_product, bind, query.
  simpl. rewrite Hnone. repeat split.
Qed.

(** X4. A write handler that refuses the caller leaves the session
    untouched: nothing is queued, flushed or committed. *)
Theorem refused_write_changes_nothing (s : Session) (region_id u : Z) :
  write_refused s region_id u = true ->
  (forall body, update_region region_id body u s = (Raise no_write_access, s))
  /\ delete_region region_id u s = (Raise no_write_access, s)
  /\ (forall body,
        add_region_product region_id body u s = (Raise no_write_access, s))
  /\ (forall body,
        delete_region_product region_id u body s
        = (Raise no_write_access, s)).
Proof.
  unfold write_refused. intros Hrefused.
  unfold update_region, delete_region, add_region_product,
    delete_region_product, bind, query. simpl.
  destruct (Region_query_get (pending s) region_id) as [region |];
    [| discriminate].
  rewrite can_modify_spec.
  destruct (spec_can_modify region u); [discriminate |].
  repeat split.
Qed.

End Check_order.

Lemma missing_region_not_found_witness :
  Region_query_get (pending (begin Sample.lab)) 99 = None
  /\ @delete_region Sample.auth Sample.storage 99 3 (begin Sample.lab)
     = (Ok (not_found "Region" 99), begin Sample.lab).
Proof.
  split; [reflexivity |].
  apply (@missing_region_not_found Sample.auth Sample.storage
           Sample.lab_model Sample.product_api (begin Sample.lab) 99 3).
  reflexivity.
Defined.

Lemma refused_write_changes_nothing_witness :
  @write_refused Sample.auth (begin Sample.lab) 1 2 = true
  /\ @delete_region Sample.auth Sample.storage 1 2 (begin Sample.lab)
     = (Raise no_write_access, begin Sample.lab).
Proof.
  split; [reflexivity |].
  apply (@refused_write_changes_nothing Sample.auth Sample.storage
           Sample.lab_model (begin Sample.lab) 1 2).
  reflexivity.
Defined.

(** ** Nothing is written unless the handler succeeds *)

Lemma still_ret {A} (a : A) : still (ret a).
Proof. intros s. reflexivity. Qed.

Lemma still_raise {A} (e : exn) : still (@raise A e).
Proof. intros s. reflexivity. Qed.

Lemma still_query {A} (f : Db -> A) : still (query f).
Proof. intros s. reflexivity. Qed.

Lemma still_bind {A B} (m : M A) (k : A -> M B) :
  still m -> (forall a, still (k a)) -> still (bind m k).
Proof.
  intros Hm Hk s. unfold bind. specialize (Hm s).
  destruct (m s) as [[a | e] s']; simpl in *; [| exact Hm].
  now rewrite Hk.
Qed.

Lemma still_for_each {A} (l : list A) (f : A -> M unit) :
  (forall x, still (f x)) -> still (for_each l f).
Proof.
  intros Hf. induction l as [| x l IH]; simpl.
  - apply still_ret.
  - apply still_bind; auto.
Qed.

Lemma still_atomic {A} (m : M A) : still m -> atomic m.
Proof. intros H s e _. apply H. Qed.

Lemma atomic_bind {A B} (m : M A) (k : A -> M B) :
  still m -> (forall a, atomic (k a)) -> atomic (bind m k).
Proof.
  intros Hm Hk s e. unfold bind. specialize (Hm s).
  destruct (m s) as [[a | e'] s']; simpl in *; [| intros _; exact Hm].
  intros Hraise. rewrite (Hk a s' e Hraise). exact Hm.
Qed.

Lemma atomic_then_ret {A B} (m : M A) (b : B) :
  atomic m -> atomic (bind m (fun _ => ret b)).
Proof.
  intros Hm s e. unfold bind. specialize (Hm s).
  destruct (m s) as [[a | e'] s']; simpl in *; [discriminate |].
  intros _. now apply (Hm e').
Qed.

Section Still_session.
Context {ST : Storage}.

Lemma still_session_add_region r : still (session_add_region r).
Proof. intros s. reflexivity. Qed.

Lemma still_session_add_region_product rp :
  still (session_add_region_product rp).
Proof. intros s. reflexivity. Qed.

Lemma still_session_delete e : still (session_delete e).
Proof. intros s. reflexivity. Qed.

Lemma still_session_flush : still session_flush.
Proof. intros s. unfold session_flush. destruct (rejects s); reflexivity. Qed.

Lemma still_set_enabled rp b : still (set_enabled rp b).
Proof. intros s. reflexivity. Qed.

Lemma still_assign_region r r' : still (assign_region r r').
Proof. intros s. reflexivity. Qed.

Lemma atomic_session_commit : atomic session_commit.
Proof.
  intros s e. unfold session_commit.
  destruct (rejects s); [reflexivity | discriminate].
Qed.

End Still_session.

Create HintDb still.

#[local] Hint Resolve still_ret still_raise still_query still_bind
  still_for_each still_session_add_region still_session_add_region_product
  still_session_delete still_session_flush still_set_enabled
  still_assign_region still_atomic atomic_bind atomic_then_ret
  atomic_session_commit : still.

Section Atomic_handlers.
Context {AU : AuthUtils} {ST : Storage} {LM : LabModel}.

Lemma atomic_create_region body u : atomic (create_region body u).
Proof. unfold create_region. auto 6 with still. Qed.

Lemma atomic_update_region region_id body u :
  atomic (update_region region_id body u).
Proof.
  unfold update_region. apply atomic_bind; [auto with still |].
  intros [region |]; [| auto with still].
  destruct (negb (_user_can_modify_region region u)); auto 6 with still.
Qed.

Lemma atomic_delete_region region_id u : atomic (delete_region region_id u).
Proof.
  unfold delete_region. apply atomic_bind; [auto with still |].
  intros [region |]; [| auto with still].
  destruct (negb (_user_can_modify_region region u)); [auto with still |].
  apply atomic_bind; [auto with still |]. intros q.
  apply atomic_bind; [| auto 6 with still].
  destruct (0 <? List.length q)%nat; auto 6 with still.
Qed.

Lemma atomic_add_region_product region_id body u :
  atomic (add_region_product region_id body u).
Proof.
  unfold add_region_product. apply atomic_bind; [auto with still |].
  intros [region |]; [| auto with still].
  destruct (negb (_user_can_modify_region region u)); [auto with still |].
  apply atomic_bind; [auto with still |].
  intros [product |]; [| auto with still].
  apply atomic_bind; [auto with still |]. intros q.
  apply atomic_then_ret.
  destruct (List.length q =? 0)%nat; [auto 6 with still |].
  destruct (body_enabled body); auto 6 with still.
Qed.

Lemma atomic_delete_region_product region_id u body :
  atomic (delete_region_product region_id u body).
Proof.
  unfold delete_region_product. apply atomic_bind; [auto with still |].
  intros [region |]; [| auto with still].
  destruct (negb (_user_can_modify_region region u)); [auto with still |].
  apply atomic_bind; [auto with still |].
  intros [product |]; [| auto with still].
  apply atomic_bind; [auto with still |]. intros q.
  apply atomic_then_ret.
  destruct (0 <? List.length q)%nat; auto 6 with still.
Qed.

(** X5. Whatever a write handler raises ([Forbidden] or a storage
    error at a flush or at the commit), the database holds what it held
    before the call: every handler commits last, and once. *)
Theorem write_handlers_atomic (region_id u : Z) :
  (forall body, atomic (create_region body u))
  /\ (forall body, atomic (update_region region_id body u))
  /\ atomic (delete_region region_id u)
  /\ (forall body, atomic (add_region_product region_id body u))
  /\ (forall body, atomic (delete_region_product region_id u body)).
Proof.
  split; [intros body; apply atomic_create_region |].
  split; [intros body; apply atomic_update_region |].
  split; [apply atomic_delete_region |].
  split; intros body.
  - apply atomic_add_region_product.
  - apply atomic_delete_region_product.
Qed.

End Atomic_handlers.

(** ** Cross-reference links *)

(** X6. The links of a region always hold the six entries [region],
    [region_usage], [region_products], [tower], [owner_group] and
    [openstack_cloud]; the entries [satellite_server], [dns_server] and
    [users_group] are there exactly when the id is set and is not [0]
    (an id of [0] counts as unset); and no key occurs twice. *)
Theorem region_href_entries (region : Region) :
  let href := _region_href region in
  let optional (endpoint : string) (o : option Z) :=
    match o with
    | Some i => if i =? 0 then None else Some (Link endpoint i)
    | None => None
    end in
  dict_get href "region"
  = Some (Link ".rhub_api_lab_region_get_region" (r_id region))
  /\ dict_get href "region_usage"
     = Some (Link ".rhub_api_lab_region_get_usage" (r_id region))
  /\ dict_get href "region_products"
     = Some (Link ".rhub_api_lab_region_list_region_products" (r_id region))
  /\ dict_get href "tower"
     = Some (Link ".rhub_api_tower_get_server" (r_tower_id region))
  /\ dict_get href "owner_group"
     = Some (Link ".rhub_api_auth_group_group_get" (r_owner_group_id region))
  /\ dict_get href "openstack_cloud"
     = Some (Link ".rhub_api_openstack_cloud_get" (r_openstack_id region))
  /\ dict_get href "satellite_server"
     = optional ".rhub_api_satellite_server_get" (r_satellite_id region)
  /\ dict_get href "dns_server"
     = optional ".rhub_api_dns_server_get" (r_dns_id region)
  /\ dict_get href "users_group"
     = optional ".rhub_api_auth_group_group_get" (r_users_group_id region)
  /\ NoDup (dict_keys href).
Proof.
  unfold _region_href, id_truthy.
  destruct (r_satellite_id region) as [a |]; [destruct (a =? 0) |];
    (destruct (r_dns_id region) as [b |]; [destruct (b =? 0) |]);
    (destruct (r_users_group_id region) as [c |]; [destruct (c =? 0) |]);
    cbn; repeat split;
    repeat (constructor; [cbn; intuition discriminate |]); constructor.
Qed.

(** ** Creating a region and reading it back *)

Lemma find_app_last {A} (f : A -> bool) (l : list A) (x : A) :
  (forall y, In y l -> f y = false) -> f x = true ->
  find f (l ++ [x]) = Some x.
Proof.
  intros Hl Hx. induction l as [| y l IH]; simpl.
  - now rewrite Hx.
  - rewrite (Hl y) by (simpl; auto). apply IH.
    intros z Hz. apply Hl. simpl. auto.
Qed.

Section Create_then_get.
Context {AU : AuthUtils} {ST : Storage} {LM : LabModel}.

(** X7. After a [create_region] that the storage accepts, in a session
    whose id sequence hands out an id no stored region has, [get_region]
    with the new id gives every caller who may read the region the very
    answer [create_region] gave. *)
Theorem create_then_get_region
    (body : region_body) (u u' : Z) (s : Session) :
  let region := with_id (from_dict body) (next_region_id (pending s)) in
  let out := create_region body u s in
  (forall r, In r (regions (pending s)) -> r_id r <> r_id region) ->
  rejects (record (EvAdd (ERegion region)) s
             (set_regions (pending s) (regions (pending s) ++ [region])))
  = false ->
  _user_can_access_region region u' = true ->
  fst out = Ok (Payload (region_view region))
  /\ Region_query_get (committed (snd out)) (r_id region) = Some region
  /\ get_region (committed (snd out)) (r_id region) u' = fst out.
Proof.
  intros region out Hfresh Haccept Haccess.
  set (db' := set_regions (pending s) (regions (pending s) ++ [region])) in *.
  assert (Hout : out = (Ok (Payload (region_view region)),
                        {| committed := db'; pending := db';
                           log := (log s ++ [EvAdd (ERegion region)])
                                  ++ [EvCommit] |})).
  { unfold out, create_region, bind, session_add_region, session_commit.
    fold region. fold db'. rewrite Haccept. reflexivity. }
  assert (Hget : Region_query_get db' (r_id region) = Some region).
  { unfold Region_query_get, db', set_regions. cbn [regions].
    apply find_app_last.
    - intros y Hy. apply Z.eqb_neq. now apply Hfresh.
    - apply Z.eqb_refl. }
  rewrite Hout. cbn [fst snd committed].
  split; [reflexivity |]. split; [exact Hget |].
  unfold get_region. rewrite Hget, Haccess. reflexivity.
Qed.

End Create_then_get.

Lemma create_then_get_region_witness :
  let region := Sample.mk_region 8 "new" true 10 None None in
  fst (@create_region Sample.storage Sample.lab_model region 3
         (begin Sample.lab))
  = Ok (Payload (region_view region))
  /\ @get_region Sample.auth
       (committed (snd (@create_region Sample.storage Sample.lab_model
                          region 3 (begin Sample.lab)))) 8 5
     = Ok (Payload (region_view region)).
Proof.
  intros region.
  destruct (@create_then_get_region Sample.auth Sample.storage
              Sample.lab_model region 3 5 (begin Sample.lab))
    as (H1 & _ & H3).
  - intros r Hr. simpl in Hr.
    repeat (destruct Hr as [<- | Hr]; [discriminate |]). destruct Hr.
  - reflexivity.
  - reflexivity.
  - split; [exact H1 | exact (eq_trans H3 H1)].
Defined.

(** ** Products that do not exist *)

Section Missing_product.
Context {AU : AuthUtils} {ST : Storage}.

(** X8. For a region the caller may modify, naming a product that does
    not exist is answered with the problem [404 Not Found] for the
    product, by [add_region_product] and by [delete_region_product]
    alike, and the session is left as it was. *)
Theorem missing_product_not_found
    (s : Session) (region_id u : Z) (body : ProductBody) (region : Region) :
  Region_query_get (pending s) region_id = Some region ->
  _user_can_modify_region region u = true ->
  Product_query_get (pending s) (body_id body) = None ->
  add_region_product region_id body u s
  = (Ok (not_found "Product" (body_id body)), s)
  /\ delete_region_product region_id u body s
     = (Ok (not_found "Product" (body_id body)), s).
Proof.
  intros Hregion Hcan Hproduct.
  unfold add_region_product, delete_region_product, bind, query. simpl.
  rewrite Hregion, Hcan. simpl. rewrite Hproduct. split; reflexivity.
Qed.

End Missing_product.

Lemma missing_product_not_found_witness :
  @add_region_product Sample.auth Sample.storage 1
    {| body_id := 9; body_enabled := None |} 3 (begin Sample.lab)
  = (Ok (not_found "Product" 9), begin Sample.lab).
Proof.
  apply (@missing_product_not_found Sample.auth Sample.storage
           (begin Sample.lab) 1 3 {| body_id := 9; body_enabled := None |}
           (Sample.mk_region 1 "prod-a" true 10 None (Sample.quota 5)));
    reflexivity.
Defined.

(** ** Removing a product from a region *)

Lemma without_filtered_rows (f : RegionProduct -> bool) rps :
  filter (fun x => negb (existsb (RegionProduct_eqb x) (filter f rps))) rps
  = filter (fun x => negb (f x)) rps.
Proof.
  apply filter_ext_in. intros x Hx. f_equal.
  destruct (f x) eqn:E.
  - apply existsb_exists. exists x. split.
    + apply filter_In. auto.
    + now apply RegionProduct_eqb_eq.
  - destruct (existsb _ _) eqn:Ex; [| reflexivity].
    apply existsb_exists in Ex. destruct Ex as (y & Hy & Hxy).
    apply RegionProduct_eqb_eq in Hxy. subst y.
    apply filter_In in Hy. destruct Hy as [_ Hy]. congruence.
Qed.

Section Delete_region_product.
Context {AU : AuthUtils} {ST : Storage}.

(** A run of [delete_region_product] by a caller with write access, on a
    storage that accepts the commit. *)
Lemma delete_region_product_run db region_id body u region product :
  Region_query_get db region_id = Some region ->
  Product_query_get db (body_id body) = Some product ->
  _user_can_modify_region region u = true ->
  (forall s, rejects s = false) ->
  delete_region_product region_id u body (begin db)
  = (Ok (Payload tt), removal_session db region product).
Proof.
  intros Hregion Hproduct Hcan Hnever.
  unfold delete_region_product, bind at 1, query at 1. simpl.
  rewrite Hregion, Hcan. simpl.
  unfold bind at 1, query at 1. simpl. rewrite Hproduct.
  unfold bind at 1, query at 1. simpl. rewrite pair_rows.
  unfold removal_session. fold (pair_match region product).
  pose proof (without_filtered_rows (pair_match region product)
                (region_products db)) as Hwithout.
  revert Hwithout.
  destruct (filter (pair_match region product) (region_products db))
    as [| a q] eqn:Erows; intros Hwithout; [reflexivity |].
  change (0 <? List.length (a :: q))%nat with true. cbv iota.
  unfold bind at 1. unfold bind at 1.
  rewrite for_each_session_delete.
  unfold bind, session_commit, ret. rewrite Hnever.
  cbn [fst snd committed pending log begin app].
  unfold without_rows. rewrite Hwithout. reflexivity.
Qed.

(** X9. [delete_region_product] by a caller with write access, on a
    storage that accepts the commit: the rows of the pair are gone, the
    other rows stay in their order, regions and products are as before;
    when the pair had no row the call still succeeds and the session is
    left untouched (nothing is committed). *)
Theorem delete_region_product_removes_pair
    (db : Db) (region_id u : Z) (body : ProductBody)
    (region : Region) (product : Product) :
  Region_query_get db region_id = Some region ->
  Product_query_get db (body_id body) = Some product ->
  _user_can_modify_region region u = true ->
  (forall s, rejects s = false) ->
  let out := delete_region_product region_id u body (begin db) in
  fst out = Ok (Payload tt)
  /\ region_products (committed (snd out))
     = filter (fun x => negb (pair_match region product x))
              (region_products db)
  /\ RegionProduct_of_pair (committed (snd out)) region product = []
  /\ regions (committed (snd out)) = regions db
  /\ products (committed (snd out)) = products db
  /\ match RegionProduct_of_pair db region product with
     | [] => snd out = begin db
     | a :: q => log (snd out) = (delete_events (a :: q) ++ [EvCommit])%list
     end.
Proof.
  intros Hregion Hproduct Hcan Hnever out. unfold out.
  rewrite (delete_region_product_run _ _ _ _ _ _ Hregion Hproduct Hcan Hnever).
  cbn [fst snd]. rewrite !pair_rows. fold (pair_match region product).
  unfold removal_session.
  destruct (filter (pair_match region product) (region_products db))
    as [| a q] eqn:Erows; cbn [committed begin log regions products
                               region_products set_region_products].
  - repeat split; auto. symmetry. now apply filter_nil_negb.
  - repeat split. apply filter_filter_negb.
Qed.

(** X10. Adding a product to a region that did not have it and removing
    it again gives back the association table as it was. *)
Theorem add_then_delete_region_product
    (db : Db) (region_id u : Z) (body : ProductBody)
    (region : Region) (product : Product) :
  Region_query_get db region_id = Some region ->
  Product_query_get db (body_id body) = Some product ->
  _user_can_modify_region region u = true ->
  (forall s, rejects s = false) ->
  RegionProduct_of_pair db region product = [] ->
  let added := add_region_product region_id body u (begin db) in
  let removed :=
    delete_region_product region_id u body (begin (committed (snd added))) in
  fst added = Ok (Payload tt)
  /\ fst removed = Ok (Payload tt)
  /\ List.length (region_products (committed (snd added)))
     = S (List.length (region_products db))
  /\ region_products (committed (snd removed)) = region_products db.
Proof.
  intros Hregion Hproduct Hcan Hnever Hnone added removed.
  rewrite pair_rows in Hnone. fold (pair_match region product) in Hnone.
  assert (Hadded : added
            = (Ok (Payload tt),
               upsert_session db region product (body_enabled body)))
    by (apply add_region_product_run; assumption).
  assert (Hdb1 : committed (snd added)
                 = set_region_products db
                     (region_products db
                      ++ [new_row region product
                            (default_enabled (body_enabled body))])).
  { rewrite Hadded. cbn [snd]. rewrite upsert_session_committed.
    unfold upserted. now rewrite Hnone. }
  assert (Hremoved : removed
            = (Ok (Payload tt),
               removal_session (committed (snd added)) region product)).
  { apply delete_region_product_run; try assumption; rewrite Hdb1.
    - exact Hregion.
    - exact Hproduct. }
  split; [now rewrite Hadded |].
  split; [now rewrite Hremoved |].
  split.
  { rewrite Hdb1. cbn [region_products set_region_products].
    rewrite length_app. simpl. lia. }
  rewrite Hremoved. cbn [snd]. rewrite Hdb1.
  unfold removal_session. cbn [region_products set_region_products].
  rewrite filter_app, Hnone. cbn [filter app].
  rewrite pair_match_new_row. cbn [committed region_products
                                   set_region_products].
  rewrite filter_app. cbn [filter]. rewrite pair_match_new_row.
  cbn [negb]. rewrite app_nil_r. now apply filter_nil_negb.
Qed.

End Delete_region_product.

Lemma delete_region_product_removes_pair_witness :
  let out :=
    @delete_region_product Sample.auth Sample.storage 1 3
      {| body_id := 2; body_enabled := None |} (begin Sample.lab) in
  fst out = Ok (Payload tt)
  /\ region_products (committed (snd out))
     = [ {| rp_region_id := 1; rp_product_id := 1; rp_enabled := true |};
         {| rp_region_id := 2; rp_product_id := 1; rp_enabled := true |} ].
Proof.
  intros out.
  destruct (@delete_region_product_removes_pair Sample.auth Sample.storage
              Sample.lab 1 3 {| body_id := 2; body_enabled := None |}
              (Sample.mk_region 1 "prod-a" true 10 None (Sample.quota 5))
              {| p_id := 2; p_name := "ocp"; p_enabled := false |}
              eq_refl eq_refl eq_refl (fun _ => eq_refl))
    as (H1 & H2 & _).
  split; [exact H1 | exact H2].
Defined.

Lemma add_then_delete_region_product_witness :
  let added :=
    @add_region_product Sample.auth Sample.storage 3
      {| body_id := 2; body_enabled := Some false |} 3 (begin Sample.lab) in
  region_products
    (committed
       (snd (@delete_region_product Sample.auth Sample.storage 3 3
               {| body_id := 2; body_enabled := Some false |}
               (begin (committed (snd added))))))
  = region_products Sample.lab.
Proof.
  intros added.
  apply (@add_then_delete_region_product Sample.auth Sample.storage
           Sample.lab 3 3 {| body_id := 2; body_enabled := Some false |}
           (Sample.mk_region 3 "Prod-b" true 10 None (Sample.quota 5))
           {| p_id := 2; p_name := "ocp"; p_enabled := false |}
           eq_refl eq_refl eq_refl (fun _ => eq_refl) eq_refl).
Defined.

(** ** Pages of [list_regions] *)

Lemma firstn_plus {A} (n m : nat) (l : list A) :
  firstn (n + m) l = (firstn n l ++ firstn m (skipn n l))%list.
Proof.
  revert l. induction n as [| n IH]; intros l; simpl; [reflexivity |].
  destruct l as [| x l]; simpl.
  - now rewrite firstn_nil.
  - now rewrite IH.
Qed.

Lemma in_limit_offset {A} (q : list A) (limit offset : nat) (x : A) :
  In x (limit_offset q limit offset) -> In x q.
Proof.
  unfold limit_offset. intros H.
  rewrite <- (firstn_skipn offset q). apply in_or_app. right.
  rewrite <- (firstn_skipn limit (skipn offset q)). apply in_or_app. now left.
Qed.

Lemma filter_length_le {A} (f g : A -> bool) (l : list A) :
  (forall x, f x = true -> g x = true) ->
  (List.length (filter f l) <= List.length (filter g l))%nat.
Proof.
  intros Hfg. induction l as [| x l IH]; simpl; [lia |].
  destruct (f x) eqn:E.
  - rewrite (Hfg x E). simpl. lia.
  - destruct (g x); simpl; lia.
Qed.

Section Region_pages.
Context {AU : AuthUtils} {ST : Storage}.

(** X11. The pages of [list_regions] of a given size cut the query without
    gap or overlap: the data of pages [0] to [k - 1], one after the other,
    are the first [k * limit] rows of the query; a page that starts at or
    after the end of the query is empty. *)
Theorem list_regions_pages_partition
    (db : Db) (u : Z) (filter_ : dict sqlval) (sort : option string)
    (limit k : nat) :
  let q := list_regions_query db u filter_ sort in
  flat_map (fun page => data (list_regions db u filter_ sort page limit))
           (seq 0 k)
  = map region_view (firstn (k * limit) q)
  /\ (forall page,
        (List.length q <= page * limit)%nat ->
        data (list_regions db u filter_ sort page limit) = []
        /\ total (list_regions db u filter_ sort page limit) = List.length q).
Proof.
  intros q. split.
  - induction k as [| k IH]; [reflexivity |].
    rewrite seq_S, flat_map_app, IH. cbn [flat_map plus].
    unfold list_regions at 1. cbn [data]. fold q.
    rewrite app_nil_r, <- map_app. f_equal.
    replace (S k * limit)%nat with (k * limit + limit)%nat by lia.
    unfold limit_offset. now rewrite firstn_plus.
  - intros page Hpage. unfold list_regions. cbn [data total]. fold q.
    unfold limit_offset. rewrite skipn_all2 by exact Hpage.
    now rewrite firstn_nil.
Qed.

Lemma region_selected_access db u filter_ r :
  region_selected db u filter_ r = true ->
  _user_can_access_region r u = true.
Proof.
  unfold region_selected. intros H.
  repeat (apply andb_true_iff in H; destruct H as [H _]). exact H.
Qed.

(** X12. Whatever the filters, the sort key and the page, [list_regions]
    returns only regions of the collection that the caller may read, each
    with its own links, and its count never exceeds the number of regions
    in the caller's scope (for an ordering that neither adds nor drops
    rows). *)
Theorem list_regions_only_readable
    (db : Db) (u : Z) (filter_ : dict sqlval) (sort : option string)
    (page limit : nat) :
  db_sort_permutes ->
  (forall v,
      In v (data (list_regions db u filter_ sort page limit)) ->
      In (view_region v) (regions db)
      /\ _user_can_access_region (view_region v) u = true
      /\ view_href v = _region_href (view_region v))
  /\ (total (list_regions db u filter_ sort page limit)
      <= List.length (_query_regions_with_permissions db u))%nat.
Proof.
  intros Hsort.
  pose proof (list_regions_query_sorted db u filter_ sort Hsort) as Hperm.
  split.
  - intros v Hv. unfold list_regions in Hv. cbn [data] in Hv.
    apply in_map_iff in Hv. destruct Hv as (r & <- & Hr).
    apply in_limit_offset in Hr.
    apply (Permutation_in _ Hperm) in Hr.
    apply filter_In in Hr. destruct Hr as [Hin Hsel].
    cbn [view_region view_href region_view].
    split; [exact Hin |]. split; [| reflexivity].
    exact (region_selected_access _ _ _ _ Hsel).
  - unfold list_regions. cbn [total].
    rewrite (Permutation_length Hperm), scoped_regions_filter.
    apply filter_length_le. apply region_selected_access.
Qed.

End Region_pages.

Lemma list_regions_only_readable_witness :
  @db_sort_permutes Sample.storage
  /\ (total (@list_regions Sample.auth Sample.storage Sample.lab 5
               [("name", VStr "prod%")] (Some "name") 0 3)
      <= List.length (@_query_regions_with_permissions Sample.auth
                        Sample.lab 5))%nat.
Proof.
  split; [exact sample_db_sort_permutes |].
  apply (@list_regions_only_readable Sample.auth Sample.storage Sample.lab 5
           [("name", VStr "prod%")] (Some "name") 0 3
           sample_db_sort_permutes).
Defined.

(** ** What [add_usage] keeps of its operands *)

Lemma dict_keys_set_fresh {V} (d : dict V) k v :
  ~ In k (dict_keys d) -> dict_keys (dict_set d k v) = (dict_keys d ++ [k])%list.
Proof.
  intros H. rewrite dict_set_fresh by exact H.
  unfold dict_keys. now rewrite map_app.
Qed.

Lemma add_usage_loop_keys d1 u2 keys acc r :
  add_usage_loop d1 u2 keys acc = Ok r ->
  NoDup (dict_keys acc ++ keys) ->
  dict_keys r = (dict_keys acc ++ keys)%list.
Proof.
  revert acc. induction keys as [| key keys IH]; intros acc Hrun Hnd; simpl in *.
  - injection Hrun as <-. now rewrite app_nil_r.
  - destruct (add_usage_key d1 u2 key) as [v | e]; simpl in Hrun;
      [| discriminate].
    assert (Hfresh : ~ In key (dict_keys acc)).
    { apply NoDup_remove_2 in Hnd. intros Hin. apply Hnd.
      apply in_or_app. auto. }
    apply IH in Hrun.
    + rewrite Hrun, dict_keys_set_fresh by exact Hfresh.
      now rewrite <- app_assoc.
    + rewrite dict_keys_set_fresh by exact Hfresh.
      rewrite <- app_assoc. exact Hnd.
Qed.

(** X13. When [add_usage] returns, the result has exactly the keys of the
    first dictionary, in its order: a limit that only the second
    dictionary holds is left out of the merge. *)
Theorem add_usage_keeps_first_keys
    (d1 : dict pyval) (usage2 : option (dict pyval)) (r : dict pyval) :
  NoDup (dict_keys d1) ->
  add_usage (Some d1) usage2 = Ok r ->
  dict_keys r = dict_keys d1.
Proof.
  intros Hnd Hrun. unfold add_usage in Hrun.
  apply add_usage_loop_keys in Hrun; [exact Hrun | exact Hnd].
Qed.

Lemma add_usage_keeps_first_keys_witness :
  add_usage (Some [("num_vms", PInt 3)])
            (Some [("num_vms", PInt 4); ("ram_mb", PInt 1)])
  = Ok [("num_vms", PInt 7)]
  /\ dict_keys [("num_vms", PInt 7)] = dict_keys [("num_vms", PInt 3)].
Proof.
  split; [reflexivity |].
  apply (add_usage_keeps_first_keys [("num_vms", PInt 3)]
           (Some [("num_vms", PInt 4); ("ram_mb", PInt 1)])).
  - repeat constructor. simpl. tauto.
  - reflexivity.
Defined.

Lemma add_usage_key_truthy d1 usage2 key a :
  dict_get d1 key = Some a ->
  truthy a = true ->
  add_usage_key d1 usage2 key = Ok (snd (sum_or_keep usage2 (key, a))).
Proof.
  intros H1 Ha. unfold add_usage_key, subscript_opt, subscript, sum_or_keep.
  rewrite H1. simpl. rewrite Ha.
  destruct a as [| x]; [discriminate |].
  destruct usage2 as [d2 |]; simpl; [| reflexivity].
  destruct (dict_get d2 key) as [[| y] |]; reflexivity.
Qed.

Lemma add_usage_loop_truthy d1 usage2 rest acc :
  NoDup (dict_keys acc ++ dict_keys rest) ->
  (forall k v, In (k, v) rest -> dict_get d1 k = Some v /\ truthy v = true) ->
  add_usage_loop d1 usage2 (dict_keys rest) acc
  = Ok (acc ++ map (sum_or_keep usage2) rest)%list.
Proof.
  revert acc. induction rest as [| [k v] rest IH]; intros acc Hnd H1; simpl.
  - now rewrite app_nil_r.
  - destruct (H1 k v) as [Hget Htruthy]; [simpl; auto |].
    rewrite (add_usage_key_truthy d1 usage2 k v Hget Htruthy).
    simpl. rewrite dict_set_fresh.
    + rewrite IH.
      * now rewrite <- app_assoc.
      * unfold dict_keys in *. rewrite map_app. simpl.
        rewrite <- app_assoc. exact Hnd.
      * intros k' v' Hin. apply H1. simpl. auto.
    + apply NoDup_remove_2 in Hnd. intros Hin. apply Hnd.
      apply in_or_app. auto.
Qed.

(** X14. A first dictionary whose limits are all integers other than [0]
    is never lost: whatever the second operand ([None], a dictionary that
    lacks keys, limits that are [None]), [add_usage] returns, with for each
    key the sum when the second operand has an integer there and the
    first limit unchanged otherwise. *)
Theorem add_usage_first_operand_kept
    (d1 : dict pyval) (usage2 : option (dict pyval)) :
  NoDup (dict_keys d1) ->
  Forall (fun kv => truthy (snd kv) = true) d1 ->
  add_usage (Some d1) usage2 = Ok (map (sum_or_keep usage2) d1).
Proof.
  intros Hnd Htruthy. unfold add_usage.
  rewrite add_usage_loop_truthy; [reflexivity | exact Hnd |].
  intros k v Hin. split.
  - now apply dict_get_in.
  - rewrite Forall_forall in Htruthy. exact (Htruthy (k, v) Hin).
Qed.

Lemma add_usage_first_operand_kept_witness :
  add_usage (Some [("num_vms", PInt 3); ("ram_mb", PInt 8)])
            (Some [("num_vms", PNone)])
  = Ok [("num_vms", PInt 3); ("ram_mb", PInt 8)].
Proof.
  apply (add_usage_first_operand_kept
           [("num_vms", PInt 3); ("ram_mb", PInt 8)]
           (Some [("num_vms", PNone)])).
  - repeat constructor; simpl; intuition discriminate.
  - repeat constructor.
Defined.

(** ** The payload of [get_all_usage] *)

Lemma str_Z_parse z : NilZero.int_of_string (str_Z z) = Some (Z.to_int z).
Proof.
  unfold str_Z. apply NilZero.isi; destruct z; simpl; try discriminate;
    intros H; injection H as H; now apply Unsigned.to_uint_nonnil in H.
Qed.

Lemma str_Z_inj a b : str_Z a = str_Z b -> a = b.
Proof.
  intros H. pose proof (str_Z_parse a) as Ha.
  rewrite H, str_Z_parse in Ha. injection Ha as Ha.
  rewrite <- (DecimalZ.of_to a), <- (DecimalZ.of_to b). now rewrite Ha.
Qed.

Lemma str_Z_not_all z : String.eqb "all" (str_Z z) = false.
Proof.
  apply String.eqb_neq. intros H. pose proof (str_Z_parse z) as Hz.
  rewrite <- H in Hz. discriminate.
Qed.

Lemma NoDup_map_str_Z (ids : list Z) : NoDup ids -> NoDup (map str_Z ids).
Proof.
  induction 1 as [| i ids Hnot Hnd IH]; simpl; constructor; [| exact IH].
  intros Hin. apply in_map_iff in Hin. destruct Hin as (j & Hj & Hin).
  apply str_Z_inj in Hj. now subst j.
Qed.

Lemma dict_mem_keys {V} (d : dict V) k :
  In k (dict_keys d) -> dict_mem d k = true.
Proof.
  unfold dict_mem. induction d as [| [k' v] d IH]; simpl; [intros [] |].
  destruct (String.eqb_spec k' k); [reflexivity |].
  intros [H | H]; [contradiction | exact (IH H)].
Qed.

Lemma merge_dict_keys d1 d2 : dict_keys (merge_dict d1 d2) = dict_keys d1.
Proof.
  unfold merge_dict, dict_keys. rewrite map_map. reflexivity.
Qed.

(** One field of the running aggregate merged with the same field of one
    more region. *)
Lemma add_usage_field x y :
  keyed x -> field_keys y = field_keys x ->
  exists d, add_usage x y = Ok d /\ merge_field x y = Some d
            /\ dict_keys d = match x with Some d1 => dict_keys d1 | None => [] end.
Proof.
  destruct x as [d1 |]; [| intros []]. intros Hnd Hkeys.
  destruct y as [d2 |]; [| discriminate]. simpl in Hkeys.
  injection Hkeys as Hkeys.
  exists (merge_dict d1 d2). split; [| split].
  - apply add_usage_pointwise; [exact Hnd |].
    intros k Hk. apply dict_mem_keys. now rewrite Hkeys.
  - reflexivity.
  - apply merge_dict_keys.
Qed.

Lemma merge_usage_shape a b :
  well_keyed a -> shape b = shape a ->
  well_keyed (merge_usage a b) /\ shape (merge_usage a b) = shape a.
Proof.
  unfold well_keyed, shape, merge_usage.
  destruct a as [[a1 |] [a2 |] [a3 |] [a4 |]]; cbn; try tauto.
  destruct b as [[b1 |] [b2 |] [b3 |] [b4 |]]; cbn; try discriminate.
  intros (H1 & H2 & H3 & H4) _.
  rewrite !merge_dict_keys. auto.
Qed.

Section Usage_payload.
Context {AU : AuthUtils} {LM : LabModel}.

Lemma get_all_usage_step_merge u acc entries region :
  ~ In (str_Z (r_id region)) (dict_keys entries) ->
  well_keyed acc ->
  shape (region_to_usage region u) = shape acc ->
  get_all_usage_step u (("all", acc) :: entries) region
  = Ok (("all", merge_usage acc (region_to_usage region u))
          :: entries ++ [usage_entry u region]).
Proof.
  intros Hfresh (K1 & K2 & K3 & K4) Hshape.
  unfold shape in Hshape. injection Hshape as S1 S2 S3 S4.
  destruct (add_usage_field _ _ K1 S1) as (d1 & A1 & M1 & _).
  destruct (add_usage_field _ _ K2 S2) as (d2 & A2 & M2 & _).
  destruct (add_usage_field _ _ K3 S3) as (d3 & A3 & M3 & _).
  destruct (add_usage_field _ _ K4 S4) as (d4 & A4 & M4 & _).
  unfold get_all_usage_step, usage_entry, merge_usage.
  cbv zeta. cbn [dict_set].
  rewrite str_Z_not_all. unfold subscript. cbn [dict_get].
  rewrite String.eqb_refl. cbn [rbind].
  change (user_quota (region_to_usage region u)) with (r_user_quota region).
  change (user_quota_usage (region_to_usage region u))
    with (get_user_quota_usage region u).
  change (total_quota (region_to_usage region u)) with (r_total_quota region).
  change (total_quota_usage (region_to_usage region u))
    with (get_total_quota_usage region).
  rewrite A1. cbn [rbind]. rewrite A2. cbn [rbind].
  rewrite A3. cbn [rbind]. rewrite A4. cbn [rbind dict_set].
  rewrite String.eqb_refl, dict_set_fresh by exact Hfresh.
  now rewrite M1, M2, M3, M4.
Qed.

Lemma get_all_usage_loop_merge u acc entries rest :
  NoDup (dict_keys entries ++ map (fun r => str_Z (r_id r)) rest) ->
  well_keyed acc ->
  Forall (fun r => shape (region_to_usage r u) = shape acc) rest ->
  get_all_usage_loop u (("all", acc) :: entries) rest
  = Ok (("all", fold_left merge_usage
                  (map (fun r => region_to_usage r u) rest) acc)
          :: entries ++ map (usage_entry u) rest).
Proof.
  revert acc entries.
  induction rest as [| r rest IH]; intros acc entries Hnd Hkeyed Hshape.
  - simpl. now rewrite app_nil_r.
  - inversion Hshape as [| ? ? Hr Hrest]; subst.
    cbn [get_all_usage_loop map fold_left].
    rewrite get_all_usage_step_merge; try assumption.
    + cbn [rbind].
      destruct (merge_usage_shape acc (region_to_usage r u) Hkeyed Hr)
        as [Hkeyed' Hshape'].
      rewrite IH.
      * now rewrite <- app_assoc.
      * unfold dict_keys in *. rewrite map_app. cbn [map fst usage_entry].
        rewrite <- app_assoc. exact Hnd.
      * exact Hkeyed'.
      * rewrite Hshape'. exact Hrest.
    + cbn [map] in Hnd. apply NoDup_remove_2 in Hnd.
      intros Hin. apply Hnd. apply in_or_app. auto.
Qed.

Lemma get_all_usage_run
    (db : Db) (u : Z) (region0 : Region) (rest : list Region) :
  _query_regions_with_permissions db u = region0 :: rest ->
  NoDup (map r_id (region0 :: rest)) ->
  well_keyed (region_to_usage region0 u) ->
  Forall (fun r => shape (region_to_usage r u)
                   = shape (region_to_usage region0 u)) rest ->
  get_all_usage db u
  = Ok (Payload
          (("all", fold_left merge_usage
                     (map (fun r => region_to_usage r u) rest)
                     (region_to_usage region0 u))
             :: map (usage_entry u) (region0 :: rest))).
Proof.
  intros Hscope Hids Hkeyed Hshape.
  unfold get_all_usage. rewrite Hscope. cbn [dict_set].
  rewrite str_Z_not_all. cbn [dict_set].
  change [(str_Z (r_id region0), region_to_usage region0 u)]
    with [usage_entry u region0].
  rewrite get_all_usage_loop_merge; try assumption.
  - reflexivity.
  - apply NoDup_map_str_Z in Hids. rewrite map_map in Hids. exact Hids.
Qed.

(** X15. For regions in scope with distinct ids whose usage views all
    have the four fields, with one set of keys per field, [get_all_usage]
    returns, and the payload is the entry [all] followed by one entry per
    region in the order of the scope, keyed by the id in decimal. The
    entry [all] is the first region's view merged in turn with the view of
    each following region: every region counts once, and with one region
    in scope [all] is that region's own view. *)
Theorem get_all_usage_aggregate
    (db : Db) (u : Z) (region0 : Region) (rest : list Region) :
  _query_regions_with_permissions db u = region0 :: rest ->
  NoDup (map r_id (region0 :: rest)) ->
  well_keyed (region_to_usage region0 u) ->
  Forall (fun r => shape (region_to_usage r u)
                   = shape (region_to_usage region0 u)) rest ->
  get_all_usage db u
  = Ok (Payload
          (("all", fold_left merge_usage
                     (map (fun r => region_to_usage r u) rest)
                     (region_to_usage region0 u))
             :: map (usage_entry u) (region0 :: rest))).
Proof. apply get_all_usage_run. Qed.

End Usage_payload.

Lemma get_all_usage_aggregate_witness :
  exists data,
    @get_all_usage Sample.auth Sample.lab_model Sample.lab 5
    = Ok (Payload data)
    /\ dict_get data "all"
       = Some {| user_quota := Some [("num_vms", PInt 30)];
                 user_quota_usage := Some [("num_vms", PInt 6)];
                 total_quota := Some [("num_vms", PInt 600)];
                 total_quota_usage := Some [("num_vms", PInt 12)] |}.
Proof.
  eexists. split.
  - apply (@get_all_usage_aggregate Sample.auth Sample.lab_model Sample.lab 5
             (Sample.mk_region 1 "prod-a" true 10 None (Sample.quota 5))).
    + reflexivity.
    + repeat constructor; simpl; intuition discriminate.
    + repeat split; repeat constructor; simpl; tauto.
    + repeat constructor.
  - reflexivity.
Defined.

(** ** The aggregate does not depend on the order of well-formed views *)

Lemma dict_get_In {V} (d : dict V) k v : dict_get d k = Some v -> In (k, v) d.
Proof.
  induction d as [| [k' v'] d IH]; simpl; [discriminate |].
  destruct (String.eqb_spec k' k) as [-> | _].
  - intros H. injection H as ->. auto.
  - intros H. right. now apply IH.
Qed.

Lemma dict_get_key {V} (d : dict V) k :
  In k (dict_keys d) -> exists v, dict_get d k = Some v.
Proof.
  intros H. apply dict_mem_keys in H. unfold dict_mem in H.
  destruct (dict_get d k) as [v |]; [now exists v | discriminate].
Qed.

Lemma dict_get_merge_dict b c k :
  dict_get (merge_dict b c) k
  = option_map
      (fun v => merge_limit v
                  (match dict_get c k with Some w => w | None => PNone end))
      (dict_get b k).
Proof.
  unfold merge_dict. induction b as [| [k' v'] b IH]; simpl; [reflexivity |].
  destruct (String.eqb_spec k' k) as [-> | _]; [reflexivity | exact IH].
Qed.

Lemma merged_entries_swap D1 D2 s1 s2 :
  map fst s1 = map fst s2 ->
  (forall k v, In (k, v) s1 -> dict_get D1 k = Some v) ->
  (forall k w, In (k, w) s2 -> dict_get D2 k = Some w) ->
  map (merged_entry D2) s1 = map (merged_entry D1) s2.
Proof.
  revert s2. induction s1 as [| [k v] s1 IH]; intros [| [k' w] s2] Hkeys H1 H2;
    try discriminate; [reflexivity |].
  simpl in Hkeys. injection Hkeys as <- Hkeys. simpl. f_equal.
  - unfold merged_entry. simpl.
    rewrite (H1 k v), (H2 k w) by (simpl; auto).
    f_equal. apply merge_limit_comm.
  - apply IH; [exact Hkeys | |]; intros; [apply H1 | apply H2]; simpl; auto.
Qed.

Lemma merge_dict_comm d1 d2 :
  NoDup (dict_keys d1) -> dict_keys d2 = dict_keys d1 ->
  merge_dict d1 d2 = merge_dict d2 d1.
Proof.
  intros Hnd Hkeys. unfold merge_dict. apply merged_entries_swap.
  - symmetry. exact Hkeys.
  - intros k v Hin. now apply dict_get_in.
  - intros k w Hin. apply dict_get_in; [| exact Hin]. now rewrite Hkeys.
Qed.

Lemma nonneg_lookup (d : dict pyval) k :
  Forall (fun kv => nonneg (snd kv)) d ->
  nonneg (match dict_get d k with Some w => w | None => PNone end).
Proof.
  intros Hd. destruct (dict_get d k) as [w |] eqn:E; [| exact I].
  apply dict_get_In in E. rewrite Forall_forall in Hd. exact (Hd (k, w) E).
Qed.

Lemma merge_dict_nonneg a b :
  Forall (fun kv => nonneg (snd kv)) a ->
  Forall (fun kv => nonneg (snd kv)) b ->
  Forall (fun kv => nonneg (snd kv)) (merge_dict a b).
Proof.
  intros Ha Hb. unfold merge_dict. apply Forall_map.
  rewrite Forall_forall in *. intros [k v] Hin. simpl.
  apply merge_limit_nonneg.
  - exact (Ha (k, v) Hin).
  - apply nonneg_lookup. now apply Forall_forall.
Qed.

Lemma merge_dict_assoc a b c :
  dict_keys b = dict_keys a ->
  Forall (fun kv => nonneg (snd kv)) a ->
  Forall (fun kv => nonneg (snd kv)) b ->
  Forall (fun kv => nonneg (snd kv)) c ->
  merge_dict (merge_dict a b) c = merge_dict a (merge_dict b c).
Proof.
  intros Hkeys Ha Hb Hc. unfold merge_dict at 1 2 3. rewrite map_map.
  apply map_ext_in. intros [k va] Hin. unfold merged_entry. simpl. f_equal.
  rewrite dict_get_merge_dict.
  assert (Hk : In k (dict_keys b)).
  { rewrite Hkeys. change k with (fst (k, va)). now apply in_map. }
  destruct (dict_get_key b k Hk) as [vb Hvb]. rewrite Hvb. simpl.
  apply merge_limit_assoc.
  - rewrite Forall_forall in Ha. exact (Ha (k, va) Hin).
  - apply dict_get_In in Hvb. rewrite Forall_forall in Hb. exact (Hb (k, vb) Hvb).
  - now apply nonneg_lookup.
Qed.

(** Folding with an operation that is associative and commutative on a
    set it keeps. *)
Section Fold_order.
Variable A : Type.
Variable f : A -> A -> A.
Variable P : A -> Prop.
Hypothesis f_closed : forall a b, P a -> P b -> P (f a b).
Hypothesis f_comm : forall a b, P a -> P b -> f a b = f b a.
Hypothesis f_assoc :
  forall a b c, P a -> P b -> P c -> f (f a b) c = f a (f b c).

Lemma fold_left_order l l' :
  Permutation l l' ->
  forall a, Forall P l -> P a -> fold_left f l a = fold_left f l' a.
Proof.
  induction 1 as [| x l l' Hperm IH | x y l | l l' l'' H1 IH1 H2 IH2];
    intros a Hl Ha; simpl.
  - reflexivity.
  - inversion Hl; subst. apply IH; auto.
  - inversion Hl as [| ? ? Hy Hl']; subst.
    inversion Hl' as [| ? ? Hx Hl'']; subst.
    f_equal. rewrite !f_assoc by assumption. f_equal. now apply f_comm.
  - rewrite IH1 by assumption. apply IH2; [| assumption].
    eapply Permutation_Forall; eassumption.
Qed.

Lemma fold_left_order_from_head x y :
  Permutation x y ->
  forall a l b m, x = a :: l -> y = b :: m -> Forall P x ->
  fold_left f l a = fold_left f m b.
Proof.
  induction 1 as [| z l0 l0' Hperm IH | z1 z2 l0 | l1 l2 l3 H1 IH1 H2 IH2];
    intros a l b m Hx Hy HP.
  - discriminate.
  - injection Hx as <- <-. injection Hy as <- <-.
    inversion HP; subst. now apply fold_left_order.
  - injection Hx as <- <-. injection Hy as <- <-.
    inversion HP as [| ? ? Hz2 HP']; subst.
    inversion HP' as [| ? ? Hz1 HP'']; subst.
    simpl. f_equal. now apply f_comm.
  - subst. destruct l2 as [| c n].
    + apply Permutation_sym, Permutation_nil in H1. discriminate.
    + rewrite (IH1 a l c n eq_refl eq_refl HP).
      apply (IH2 c n b m eq_refl eq_refl).
      eapply Permutation_Forall; eassumption.
Qed.

End Fold_order.

Lemma merge_field_closed ks x y :
  field_over ks x -> field_over ks y -> field_over ks (merge_field x y).
Proof.
  destruct x as [a |], y as [b |]; try (intros [H _]; discriminate);
    try (intros _ [H _]; discriminate).
  intros (Ka & Hnd & Na) (Kb & _ & Nb). simpl in *.
  injection Ka as Ka. repeat split.
  - simpl. now rewrite merge_dict_keys, Ka.
  - exact Hnd.
  - simpl. now apply merge_dict_nonneg.
Qed.

Lemma merge_field_comm ks x y :
  field_over ks x -> field_over ks y -> merge_field x y = merge_field y x.
Proof.
  destruct x as [a |], y as [b |]; try (intros [H _]; discriminate);
    try (intros _ [H _]; discriminate).
  intros (Ka & Hnd & _) (Kb & _ & _). simpl in *.
  injection Ka as Ka. injection Kb as Kb. f_equal.
  apply merge_dict_comm; [now rewrite Ka | now rewrite Ka, Kb].
Qed.

Lemma merge_field_assoc ks x y z :
  field_over ks x -> field_over ks y -> field_over ks z ->
  merge_field (merge_field x y) z = merge_field x (merge_field y z).
Proof.
  destruct x as [a |], y as [b |], z as [c |];
    try (intros [H _]; discriminate);
    try (intros _ [H _]; discriminate);
    try (intros _ _ [H _]; discriminate).
  intros (Ka & _ & Na) (Kb & _ & Nb) (Kc & _ & Nc). simpl in *.
  injection Ka as Ka. injection Kb as Kb. f_equal.
  apply merge_dict_assoc; try assumption. now rewrite Ka, Kb.
Qed.

Lemma merge_usage_closed ks a b :
  usage_over ks a -> usage_over ks b -> usage_over ks (merge_usage a b).
Proof.
  destruct ks as [[[k1 k2] k3] k4].
  intros (A1 & A2 & A3 & A4) (B1 & B2 & B3 & B4).
  refine (conj _ (conj _ (conj _ _))); simpl; now apply merge_field_closed.
Qed.

Lemma merge_usage_comm ks a b :
  usage_over ks a -> usage_over ks b -> merge_usage a b = merge_usage b a.
Proof.
  destruct ks as [[[k1 k2] k3] k4].
  intros (A1 & A2 & A3 & A4) (B1 & B2 & B3 & B4). unfold merge_usage.
  f_equal; eapply merge_field_comm; eassumption.
Qed.

Lemma merge_usage_assoc ks a b c :
  usage_over ks a -> usage_over ks b -> usage_over ks c ->
  merge_usage (merge_usage a b) c = merge_usage a (merge_usage b c).
Proof.
  destruct ks as [[[k1 k2] k3] k4].
  intros (A1 & A2 & A3 & A4) (B1 & B2 & B3 & B4) (C1 & C2 & C3 & C4).
  unfold merge_usage. simpl.
  f_equal; eapply merge_field_assoc; eassumption.
Qed.

Lemma sound_field_over x :
  keyed x -> nonneg_field x -> exists ks, field_over ks x.
Proof.
  destruct x as [d |]; [| intros []]. intros Hnd Hnn.
  exists (dict_keys d). repeat split; assumption.
Qed.

Lemma field_over_same ks x y :
  field_over ks x -> field_keys y = field_keys x -> nonneg_field y ->
  field_over ks y.
Proof.
  intros (K & Hnd & _) Hkeys Hnn. repeat split; try assumption.
  now rewrite Hkeys.
Qed.

Lemma sound_usage_over a :
  sound a -> exists ks, usage_over ks a.
Proof.
  intros ((K1 & K2 & K3 & K4) & N1 & N2 & N3 & N4).
  destruct (sound_field_over _ K1 N1) as [k1 H1].
  destruct (sound_field_over _ K2 N2) as [k2 H2].
  destruct (sound_field_over _ K3 N3) as [k3 H3].
  destruct (sound_field_over _ K4 N4) as [k4 H4].
  exists (k1, k2, k3, k4). exact (conj H1 (conj H2 (conj H3 H4))).
Qed.

Lemma usage_over_same ks a b :
  usage_over ks a -> shape b = shape a -> sound b -> usage_over ks b.
Proof.
  destruct ks as [[[k1 k2] k3] k4].
  intros (A1 & A2 & A3 & A4) Hshape (_ & N1 & N2 & N3 & N4).
  unfold shape in Hshape. injection Hshape as S1 S2 S3 S4.
  refine (conj _ (conj _ (conj _ _))); eapply field_over_same; eassumption.
Qed.

Lemma usage_over_well_keyed ks a : usage_over ks a -> well_keyed a.
Proof.
  destruct ks as [[[k1 k2] k3] k4].
  assert (H : forall k x, field_over k x -> keyed x).
  { intros k [d |] (K & Hnd & _); [| discriminate].
    simpl in *. injection K as K. now rewrite K. }
  intros (A1 & A2 & A3 & A4).
  refine (conj _ (conj _ (conj _ _))); eapply H; eassumption.
Qed.

Lemma usage_over_shape ks a b :
  usage_over ks a -> usage_over ks b -> shape b = shape a.
Proof.
  destruct ks as [[[k1 k2] k3] k4].
  intros ((A1 & _) & (A2 & _) & (A3 & _) & (A4 & _))
         ((B1 & _) & (B2 & _) & (B3 & _) & (B4 & _)).
  unfold shape. now rewrite A1, A2, A3, A4, B1, B2, B3, B4.
Qed.

Section Usage_order.
Context {AU : AuthUtils} {LM : LabModel}.

(** X16. For regions in scope with distinct ids whose usage views have the
    four fields, the same keys field by field, and no negative limit, the
    entry [all] of [get_all_usage] does not depend on the order of the
    regions: two collections whose scopes hold the same regions in
    different orders give the same aggregate. *)
Theorem get_all_usage_order_independent
    (db db' : Db) (u : Z) (region0 region0' : Region)
    (rest rest' : list Region) :
  _query_regions_with_permissions db u = region0 :: rest ->
  _query_regions_with_permissions db' u = region0' :: rest' ->
  Permutation (region0 :: rest) (region0' :: rest') ->
  NoDup (map r_id (region0 :: rest)) ->
  Forall (fun r => shape (region_to_usage r u)
                   = shape (region_to_usage region0 u)
                   /\ sound (region_to_usage r u)) (region0 :: rest) ->
  exists agg,
    get_all_usage db u
    = Ok (Payload (("all", agg) :: map (usage_entry u) (region0 :: rest)))
    /\ get_all_usage db' u
       = Ok (Payload (("all", agg) :: map (usage_entry u) (region0' :: rest'))).
Proof.
  intros Hscope Hscope' Hperm Hids Hall.
  set (usage := fun r => region_to_usage r u).
  assert (H0 : sound (usage region0))
    by (inversion Hall as [| ? ? [_ H] _]; exact H).
  destruct (sound_usage_over _ H0) as [ks Hks].
  assert (Hover : Forall (usage_over ks) (map usage (region0 :: rest))).
  { apply Forall_map. eapply Forall_impl; [| exact Hall].
    intros r [Hshape Hsound]. now apply (usage_over_same ks (usage region0)). }
  assert (Hover' : Forall (usage_over ks) (map usage (region0' :: rest'))).
  { eapply Permutation_Forall; [| exact Hover]. now apply Permutation_map. }
  exists (fold_left merge_usage (map usage rest) (usage region0)).
  split.
  - apply get_all_usage_run; try assumption.
    + now apply (usage_over_well_keyed ks).
    + inversion Hall as [| ? ? _ Hrest]; subst.
      eapply Forall_impl; [| exact Hrest]. now intros r [H _].
  - rewrite (fold_left_order_from_head Usage merge_usage (usage_over ks)
               (merge_usage_closed ks) (merge_usage_comm ks)
               (merge_usage_assoc ks)
               (map usage (region0 :: rest)) (map usage (region0' :: rest'))
               (Permutation_map usage Hperm)
               (usage region0) (map usage rest)
               (usage region0') (map usage rest') eq_refl eq_refl Hover).
    cbn [map] in Hover'. inversion Hover' as [| ? ? Hhead Htail]; subst.
    apply get_all_usage_run; try assumption.
    + eapply Permutation_NoDup; [| exact Hids]. now apply Permutation_map.
    + now apply (usage_over_well_keyed ks).
    + rewrite Forall_map in Htail. eapply Forall_impl; [| exact Htail].
      intros r Hr. now apply (usage_over_shape ks).
Qed.

End Usage_order.

Lemma get_all_usage_order_independent_witness :
  let other := Sample.mk_region 3 "other" true 10 None (Sample.quota 0) in
  exists agg data data',
    @get_all_usage Sample.auth Sample.lab_model
      (Sample.mk_db [Sample.metered; other] []) 5
    = Ok (Payload (("all", agg) :: data))
    /\ @get_all_usage Sample.auth Sample.lab_model
         (Sample.mk_db [other; Sample.metered] []) 5
       = Ok (Payload (("all", agg) :: data')).
Proof.
  intros other.
  destruct (@get_all_usage_order_independent Sample.auth Sample.lab_model
              (Sample.mk_db [Sample.metered; other] [])
              (Sample.mk_db [other; Sample.metered] []) 5
              Sample.metered other [other] [Sample.metered])
    as (agg & H1 & H2).
  - reflexivity.
  - reflexivity.
  - apply perm_swap.
  - repeat constructor; simpl; intuition discriminate.
  - repeat constructor; simpl; try tauto; try lia.
  - exists agg. eexists. eexists. split; [exact H1 | exact H2].
Defined.

(** ** Entries of the payload of [get_all_usage] *)

Section Usage_entries.
Context {AU : AuthUtils} {LM : LabModel}.

Lemma get_all_usage_step_entries u acc entries region data' :
  ~ In (str_Z (r_id region)) (dict_keys entries) ->
  get_all_usage_step u (("all", acc) :: entries) region = Ok data' ->
  exists agg, data' = ("all", agg) :: entries ++ [usage_entry u region].
Proof.
  intros Hfresh. unfold get_all_usage_step. cbv zeta. cbn [dict_set].
  rewrite str_Z_not_all. unfold subscript. cbn [dict_get].
  rewrite String.eqb_refl. cbn [rbind].
  destruct (add_usage _ _) as [d1 | e]; cbn [rbind]; [| discriminate].
  destruct (add_usage _ _) as [d2 | e]; cbn [rbind]; [| discriminate].
  destruct (add_usage _ _) as [d3 | e]; cbn [rbind]; [| discriminate].
  destruct (add_usage _ _) as [d4 | e]; cbn [rbind]; [| discriminate].
  cbn [dict_set]. rewrite String.eqb_refl, dict_set_fresh by exact Hfresh.
  intros H. injection H as <-. eexists. reflexivity.
Qed.

Lemma get_all_usage_loop_entries u rest :
  forall acc entries data',
  NoDup (dict_keys entries ++ map (fun r => str_Z (r_id r)) rest) ->
  get_all_usage_loop u (("all", acc) :: entries) rest = Ok data' ->
  exists agg, data' = ("all", agg) :: entries ++ map (usage_entry u) rest.
Proof.
  induction rest as [| r rest IH]; intros acc entries data' Hnd Hrun.
  - simpl in Hrun. injection Hrun as <-. exists acc. now rewrite app_nil_r.
  - cbn [get_all_usage_loop] in Hrun.
    destruct (get_all_usage_step u (("all", acc) :: entries) r)
      as [data1 | e] eqn:Estep; cbn [rbind] in Hrun; [| discriminate].
    apply get_all_usage_step_entries in Estep.
    + destruct Estep as [agg1 ->].
      apply IH in Hrun.
      * destruct Hrun as [agg ->]. exists agg.
        rewrite <- app_assoc. reflexivity.
      * unfold dict_keys in *. rewrite map_app. cbn [map fst usage_entry].
        rewrite <- app_assoc. exact Hnd.
    + cbn [map] in Hnd. apply NoDup_remove_2 in Hnd.
      intros Hin. apply Hnd. apply in_or_app. auto.
Qed.

(** X17. Whenever [get_all_usage] returns a payload, for regions in scope
    with distinct ids, the payload is the entry [all] followed by one
    entry per region in scope, in the order of the scope, keyed by the id
    in decimal and holding that region's own usage view: aggregating never
    alters or drops a region's entry. *)
Theorem get_all_usage_entries (db : Db) (u : Z) (data : dict Usage) :
  NoDup (map r_id (_query_regions_with_permissions db u)) ->
  get_all_usage db u = Ok (Payload data) ->
  exists agg,
    data = ("all", agg)
             :: map (usage_entry u) (_query_regions_with_permissions db u).
Proof.
  intros Hids. unfold get_all_usage.
  destruct (_query_regions_with_permissions db u) as [| region0 rest];
    [discriminate |].
  cbn [dict_set]. rewrite str_Z_not_all. cbn [dict_set].
  destruct (get_all_usage_loop u _ rest) as [data' | e] eqn:Eloop;
    cbn [rbind]; [| discriminate].
  intros H. injection H as <-.
  change [(str_Z (r_id region0), region_to_usage region0 u)]
    with [usage_entry u region0] in Eloop.
  apply get_all_usage_loop_entries in Eloop; [exact Eloop |].
  apply NoDup_map_str_Z in Hids. rewrite map_map in Hids. exact Hids.
Qed.

End Usage_entries.

Lemma get_all_usage_entries_witness :
  exists agg,
    @get_all_usage Sample.auth Sample.lab_model Sample.metered_first 5
    = Ok (Payload
            (("all", agg)
               :: map (@usage_entry Sample.lab_model 5)
                    [Sample.metered; Sample.unmetered])).
Proof.
  destruct (@get_all_usage_entries Sample.auth Sample.lab_model
              Sample.metered_first 5 _
              ltac:(repeat constructor; simpl; intuition discriminate)
              eq_refl) as [agg H].
  exists agg. vm_compute. vm_compute in H. now rewrite H.
Defined.

(** ** All the products of a region *)

Lemma collect_Forall2 {A B} (f : A -> result B) (R : A -> B -> Prop) l :
  (forall x, In x l -> exists y, f x = Ok y /\ R x y) ->
  exists ys, collect f l = Ok ys /\ Forall2 R l ys.
Proof.
  induction l as [| x l IH]; intros H; simpl.
  - exists []. split; [reflexivity | constructor].
  - destruct (H x) as (y & Hy & Hxy); [simpl; auto |].
    destruct IH as (ys & Hys & Hall); [intros z Hz; apply H; simpl; auto |].
    exists (y :: ys). rewrite Hy, Hys. split; [reflexivity |].
    now constructor.
Qed.

Section Products_of_region.
Context {AU : AuthUtils} {ST : Storage} {PA : ProductApi}.

(** X18. Without filter, for a region the caller may read and
    associations whose products all exist, [list_region_products] returns
    one view per association of the region, in the order of the table and
    without paging; each view carries the region id, the product id, the
    product itself and the association's own [enabled] flag. *)
Theorem list_region_products_unfiltered
    (db : Db) (region_id u : Z) (region : Region) :
  Region_query_get db region_id = Some region ->
  _user_can_access_region region u = true ->
  (forall r, In r (RegionProduct_of_region db region) ->
             rp_product db r <> None) ->
  exists views,
    list_region_products db region_id u [] = Ok (Payload views)
    /\ Forall2
         (fun r v =>
            rpv_region_id v = region_id
            /\ rpv_product_id v = rp_product_id r
            /\ rp_product db r = Some (rpv_product v)
            /\ rpv_enabled v = rp_enabled r
            /\ rpv_href v
               = dict_union (_region_href region)
                   (_product_href (rpv_product v)))
         (RegionProduct_of_region db region) views.
Proof.
  intros Hregion Haccess Hproducts.
  pose proof (Region_query_get_id _ _ _ Hregion) as Hid.
  unfold list_region_products. rewrite Hregion, Haccess. cbn.
  destruct (collect_Forall2 (region_product_view db)
              (fun r v =>
                 rpv_region_id v = region_id
                 /\ rpv_product_id v = rp_product_id r
                 /\ rp_product db r = Some (rpv_product v)
                 /\ rpv_enabled v = rp_enabled r
                 /\ rpv_href v
                    = dict_union (_region_href region)
                        (_product_href (rpv_product v)))
              (RegionProduct_of_region db region)) as (views & Hviews & Hall).
  - intros r Hr. unfold region_product_view.
    assert (Hrid : rp_region_id r = region_id).
    { rewrite region_rows in Hr. apply filter_In in Hr.
      destruct Hr as [_ Hr]. apply Z.eqb_eq in Hr. now rewrite Hr. }
    unfold rp_region. rewrite Hrid, Hregion.
    specialize (Hproducts r Hr).
    destruct (rp_product db r) as [product |] eqn:Eproduct; [| congruence].
    eexists. split; [reflexivity |]. cbn.
    repeat split; try assumption.
    unfold rp_product, Product_query_get in Eproduct.
    apply find_some in Eproduct. destruct Eproduct as [_ E].
    now apply Z.eqb_eq in E.
  - exists views. rewrite Hviews. split; [reflexivity | exact Hall].
Qed.

End Products_of_region.

Lemma list_region_products_unfiltered_witness :
  exists views,
    @list_region_products Sample.auth Sample.storage Sample.product_api
      Sample.lab 1 5 [] = Ok (Payload views)
    /\ List.length views = 2%nat.
Proof.
  destruct (@list_region_products_unfiltered Sample.auth Sample.storage
              Sample.product_api Sample.lab 1 5
              (Sample.mk_region 1 "prod-a" true 10 None (Sample.quota 5))
              eq_refl eq_refl) as (views & Hviews & Hall).
  - intros r Hr. simpl in Hr.
    destruct Hr as [<- | [<- | []]]; discriminate.
  - exists views. split; [exact Hviews |].
    apply Forall2_length in Hall. rewrite <- Hall. reflexivity.
Defined.

(** ** The row helper of the API tests *)

Lemma dict_get_set_same {V} (d : dict V) k v :
  dict_get (dict_set d k v) k = Some v.
Proof.
  induction d as [| [k' v'] d IH]; simpl.
  - now rewrite String.eqb_refl.
  - destruct (String.eqb_spec k' k) as [-> | Hne]; simpl.
    + now rewrite String.eqb_refl.
    + destruct (String.eqb_spec k' k); [contradiction | exact IH].
Qed.

Lemma dict_get_set_other {V} (d : dict V) k k' v :
  k <> k' -> dict_get (dict_set d k v) k' = dict_get d k'.
Proof.
  intros Hne. induction d as [| [k0 v0] d IH]; simpl.
  - destruct (String.eqb_spec k k'); [contradiction | reflexivity].
  - destruct (String.eqb_spec k0 k) as [-> | H0]; simpl.
    + destruct (String.eqb_spec k k'); [contradiction | reflexivity].
    + destruct (String.eqb_spec k0 k'); [reflexivity | exact IH].
Qed.

Lemma side_effect_other {V} (data_added row : dict V) k :
  ~ In k (dict_keys data_added) ->
  dict_get (_db_add_row_side_effect data_added row) k = dict_get row k.
Proof.
  unfold _db_add_row_side_effect. revert row.
  induction data_added as [| [k' v'] data IH]; intros row Hk; simpl;
    [reflexivity |].
  rewrite IH by (intros H; apply Hk; simpl; auto).
  apply dict_get_set_other. intros ->. apply Hk. simpl. auto.
Qed.

(** X19. After the side effect of [_db_add_row_side_effect(data_added)] the
    row holds, under every key of [data_added], the value [data_added]
    gives it, and every other attribute of the row is as before. *)
Theorem db_add_row_side_effect_sets {V} (data_added row : dict V) :
  NoDup (dict_keys data_added) ->
  (forall k v, In (k, v) data_added ->
     dict_get (_db_add_row_side_effect data_added row) k = Some v)
  /\ (forall k, ~ In k (dict_keys data_added) ->
        dict_get (_db_add_row_side_effect data_added row) k = dict_get row k).
Proof.
  intros Hnd. split; [| intros k; apply side_effect_other].
  revert row. induction data_added as [| [k' v'] data IH]; intros row k v Hin;
    [destruct Hin |].
  inversion Hnd as [| ? ? Hnot Hnd']; subst.
  unfold _db_add_row_side_effect. cbn [fold_left fst snd].
  destruct Hin as [Heq | Hin].
  - injection Heq as -> ->.
    change (dict_get (_db_add_row_side_effect data (dict_set row k v)) k
            = Some v).
    rewrite side_effect_other by exact Hnot. apply dict_get_set_same.
  - exact (IH Hnd' (dict_set row k' v') k v Hin).
Qed.

Lemma db_add_row_side_effect_sets_witness :
  dict_get (_db_add_row_side_effect [("id", 1); ("name", 7)]
              [("name", 0); ("hostname", 3)]) "name" = Some 7
  /\ dict_get (_db_add_row_side_effect [("id", 1); ("name", 7)]
                 [("name", 0); ("hostname", 3)]) "hostname" = Some 3.
Proof.
  destruct (db_add_row_side_effect_sets [("id", 1); ("name", 7)]
              [("name", 0); ("hostname", 3)]) as [Hset Hother].
  - repeat constructor; simpl; intuition discriminate.
  - split.
    + apply Hset. simpl. auto.
    + rewrite Hother; [reflexivity |]. simpl. intuition discriminate.
Defined.

(** ** The scope and the single-region handlers agree *)

Lemma Region_query_get_unique db r :
  NoDup (map r_id (regions db)) -> In r (regions db) ->
  Region_query_get db (r_id r) = Some r.
Proof.
  unfold Region_query_get. induction (regions db) as [| x l IH]; simpl;
    intros Hnd Hin; [destruct Hin |].
  inversion Hnd as [| ? ? Hnot Hnd']; subst.
  destruct Hin as [-> | Hin].
  - now rewrite Z.eqb_refl.
  - destruct (Z.eqb_spec (r_id x) (r_id r)) as [E | _]; [| now apply IH].
    exfalso. apply Hnot. rewrite E. now apply in_map.
Qed.

Section Scope_and_get.
Context {AU : AuthUtils} {LM : LabModel}.

(** X20. In a collection with distinct ids, the regions in a caller's
    scope are exactly the regions [get_region] hands to that caller: a
    region that is listed can be fetched (and its usage read) by its id,
    and a region that can be fetched is listed. *)
Theorem scope_agrees_with_get_region (db : Db) (u : Z) (r : Region) :
  NoDup (map r_id (regions db)) ->
  (In r (_query_regions_with_permissions db u)
   <-> get_region db (r_id r) u = Ok (Payload (region_view r)))
  /\ (In r (_query_regions_with_permissions db u) ->
      get_usage db (r_id r) u = Ok (Payload (region_to_usage r u))).
Proof.
  intros Hnd. rewrite scoped_regions_filter.
  split; [split |].
  - intros Hin. apply filter_In in Hin. destruct Hin as [Hin Haccess].
    unfold get_region.
    now rewrite (Region_query_get_unique db r Hnd Hin), Haccess.
  - unfold get_region.
    destruct (Region_query_get db (r_id r)) as [r' |] eqn:Eget;
      [| discriminate].
    destruct (_user_can_access_region r' u) eqn:Haccess; simpl;
      [| discriminate].
    intros H.
    assert (Hr : r' = r).
    { apply (f_equal (fun x => match x with
                               | Ok (Payload v) => Some (view_region v)
                               | _ => None
                               end)) in H.
      simpl in H. now injection H. }
    subst r'. apply filter_In. split; [| exact Haccess].
    unfold Region_query_get in Eget. apply find_some in Eget. tauto.
  - intros Hin. apply filter_In in Hin. destruct Hin as [Hin Haccess].
    unfold get_usage.
    now rewrite (Region_query_get_unique db r Hnd Hin), Haccess.
Qed.

End Scope_and_get.

Lemma scope_agrees_with_get_region_witness :
  let r := Sample.mk_region 6 "PROD-d" true 10 None (Sample.quota 5) in
  @get_region Sample.auth Sample.lab 6 5 = Ok (Payload (region_view r)).
Proof.
  intros r.
  apply (proj1 (@scope_agrees_with_get_region Sample.auth Sample.lab_model
                  Sample.lab 5 r
                  ltac:(repeat constructor; simpl; intuition discriminate))).
  simpl. tauto.
Defined.

(** ** Updating a region and reading it back *)

Lemma find_map_replace (l : list Region) (i : Z) (r r' : Region) :
  find (fun x => r_id x =? i) l = Some r ->
  r_id r' = i ->
  find (fun x => r_id x =? i)
       (map (fun x => if r_id x =? r_id r then r' else x) l) = Some r'.
Proof.
  intros Hfind Hid.
  assert (Hr : r_id r = i).
  { apply find_some in Hfind. destruct Hfind as [_ H]. now apply Z.eqb_eq. }
  rewrite Hr. clear Hr. induction l as [| x l IH]; simpl in *; [discriminate |].
  destruct (r_id x =? i) eqn:E.
  - now rewrite Hid, Z.eqb_refl.
  - rewrite E. now apply IH.
Qed.

Section Update_then_get.
Context {AU : AuthUtils} {ST : Storage} {LM : LabModel}.

(** X21. After an [update_region] by a caller with write access that the
    storage accepts, with a patch that keeps the region's id: the
    collection has as many regions as before, the associations are
    untouched, and [get_region] with the same id gives every caller who
    may read the patched region the answer [update_region] gave. *)
Theorem update_then_get_region
    (db : Db) (region_id u u' : Z) (body : region_body) (region : Region) :
  let region' := update_from_dict region body in
  let out := update_region region_id body u (begin db) in
  Region_query_get db region_id = Some region ->
  _user_can_modify_region region u = true ->
  r_id region' = region_id ->
  (forall s, rejects s = false) ->
  _user_can_access_region region' u' = true ->
  fst out = Ok (Payload (region_view region'))
  /\ List.length (regions (committed (snd out))) = List.length (regions db)
  /\ region_products (committed (snd out)) = region_products db
  /\ get_region (committed (snd out)) region_id u' = fst out.
Proof.
  intros region' out Hregion Hcan Hid Hnever Haccess.
  assert (Hout : out
            = (Ok (Payload (region_view region')),
               let db' :=
                 set_regions db
                   (map (fun x => if r_id x =? r_id region then region' else x)
                        (regions db)) in
               {| committed := db'; pending := db'; log := [EvCommit] |})).
  { unfold out, update_region, bind, query. simpl.
    rewrite Hregion, Hcan. simpl. unfold session_commit.
    rewrite Hnever. reflexivity. }
  rewrite Hout. cbn [fst snd committed]. cbv zeta.
  cbn [regions region_products set_regions].
  split; [reflexivity |]. split; [apply length_map |].
  split; [reflexivity |].
  unfold get_region, Region_query_get. cbn [regions set_regions].
  rewrite (find_map_replace _ _ _ _ Hregion Hid), Haccess. reflexivity.
Qed.

End Update_then_get.

Lemma update_then_get_region_witness :
  let patch := Sample.mk_region 0 "renamed" false 10 None None in
  @get_region Sample.auth
    (committed
       (snd (@update_region Sample.auth Sample.storage Sample.lab_model
               2 patch 3 (begin Sample.lab)))) 2 5
  = Ok (Payload (region_view
                   (Sample.mk_region 2 "renamed" false 10 None None))).
Proof.
  intros patch.
  destruct (@update_then_get_region Sample.auth Sample.storage
              Sample.lab_model Sample.lab 2 3 5 patch
              (Sample.mk_region 2 "dev" true 10 None (Sample.quota 5))
              eq_refl eq_refl eq_refl (fun _ => eq_refl) eq_refl)
    as (H1 & _ & _ & H4).
  exact (eq_trans H4 H1).
Defined.
